(** * User lists controller (src/user-lists/user-list.controller.ts)

    A shallow embedding of [UserListController] and of the service it
    delegates to.  Handlers are functions in a state-and-exception monad
    ([Async]) over the backing store; the controller is written against the
    [UserListService] interface, exactly as the class receives it through
    its constructor. *)

From Stdlib Require Import ZArith List String Bool Lia Permutation PeanoNat.
From Stdlib Require Import DecimalString DecimalNat.
Import ListNotations.

Local Open Scope string_scope.
Local Open Scope list_scope.

(** ** Exceptions raised towards the HTTP layer *)

Inductive HttpException : Type :=
| NotFoundException
| BadRequestException.

(** ** Promises

    An [async] function is a computation over the backing store that
    settles either fulfilled with a value or rejected with an exception. *)

Module Promise.

Inductive Settled (A : Type) : Type :=
| Fulfilled (a : A)
| Rejected (e : HttpException).
Arguments Fulfilled {A} a.
Arguments Rejected {A} e.

Definition Async (Store A : Type) : Type := Store -> Settled A * Store.

Section Combinators.
Context {Store : Type}.

Definition resolve {A} (a : A) : Async Store A := fun s => (Fulfilled a, s).

Definition reject {A} (e : HttpException) : Async Store A :=
  fun s => (Rejected e, s).

(** [await p] followed by the rest of the [async] body: a rejection of
    [p] is rethrown and the rest is skipped. *)
Definition await {A B} (p : Async Store A) (k : A -> Async Store B)
  : Async Store B :=
  fun s =>
    match p s with
    | (Fulfilled a, s1) => k a s1
    | (Rejected e, s1) => (Rejected e, s1)
    end.

(** The promises of an array produced by [arr.map(async ...)] are all
    started by the time the array exists; the store serves them in some
    order [sched] (a list of array indices), each call as one step.
    [settle] runs them in that order and logs, in settling order, each
    index with its outcome. *)
Fixpoint settle {A} (sched : list nat) (ps : list (Async Store A))
         (s : Store) : list (nat * Settled A) * Store :=
  match sched with
  | [] => ([], s)
  | i :: rest =>
      match nth_error ps i with
      | None => settle rest ps s
      | Some p =>
          let (o, s1) := p s in
          let (log, s2) := settle rest ps s1 in
          ((i, o) :: log, s2)
      end
  end.

(** The reason of the first promise that rejected, in settling order. *)
Fixpoint first_rejection {A} (log : list (nat * Settled A))
  : option HttpException :=
  match log with
  | [] => None
  | (_, Rejected e) :: _ => Some e
  | (_, Fulfilled _) :: rest => first_rejection rest
  end.

Fixpoint fulfilled_at {A} (log : list (nat * Settled A)) (i : nat)
  : option A :=
  match log with
  | [] => None
  | (j, Fulfilled a) :: rest =>
      if Nat.eqb i j then Some a else fulfilled_at rest i
  | (_, Rejected _) :: rest => fulfilled_at rest i
  end.

(** The fulfilment values, in the order of the input array. *)
Definition values_in_order {A} (n : nat) (log : list (nat * Settled A))
  : list A :=
  flat_map (fun i => match fulfilled_at log i with
                     | Some a => [a]
                     | None => []
                     end) (seq 0 n).

(** The outcomes, in the order of the input array. *)
Fixpoint outcome_at {A} (log : list (nat * Settled A)) (i : nat)
  : option (Settled A) :=
  match log with
  | [] => None
  | (j, o) :: rest => if Nat.eqb i j then Some o else outcome_at rest i
  end.

Definition outcomes_in_order {A} (n : nat) (log : list (nat * Settled A))
  : list (Settled A) :=
  flat_map (fun i => match outcome_at log i with
                     | Some o => [o]
                     | None => []
                     end) (seq 0 n).

(** [Promise.all]: rejects with the reason of the first rejection,
    otherwise fulfils with the array of values.  The other promises are
    not cancelled: the store is the one reached when all have settled. *)
Definition all {A} (sched : list nat) (ps : list (Async Store A))
  : Async Store (list A) :=
  fun s =>
    let (log, s1) := settle sched ps s in
    match first_rejection log with
    | Some e => (Rejected e, s1)
    | None => (Fulfilled (values_in_order (List.length ps) log), s1)
    end.

(** [Promise.allSettled]: never rejects; fulfils with every outcome. *)
Definition allSettled {A} (sched : list nat) (ps : list (Async Store A))
  : Async Store (list (Settled A)) :=
  fun s =>
    let (log, s1) := settle sched ps s in
    (Fulfilled (outcomes_in_order (List.length ps) log), s1).

End Combinators.

End Promise.
Import Promise.

Declare Scope async_scope.
Delimit Scope async_scope with async.
Notation "'let*' x ':=' p 'in' k" := (await p (fun x => k))
  (at level 10, x name, p at level 100, k at level 200) : async_scope.
Notation "p ';;' k" := (await p (fun _ => k))
  (at level 100, k at level 200, right associativity) : async_scope.
Local Open Scope async_scope.

(** ** Entities and DTOs

    The entity and DTO classes are imported by the controller and declared
    in files that are not among the sources. *)

(** Modelled from the spec: the entity class [DbUserList]
    (entities/user-list.entity.ts); the fields of a List in section 3.  The
    controller reads [id] only. *)
Module DbUserList.
Record t : Type := mk {
  id : string;
  owner_id : Z;
  name : string;
  is_public : bool;
  created_at : Z
}.

(** [Partial<DbUserList>]: an object literal giving some of the columns. *)
Record partial : Type := mkPartial {
  set_owner_id : option Z;
  set_name : option string;
  set_is_public : option bool
}.
End DbUserList.

(** Modelled from the spec: the entity class [DbUserListContributor]
    (entities/user-list-contributor.entity.ts); the fields of a Contributor
    Relationship in section 3. *)
Module DbUserListContributor.
Record t : Type := mk {
  id : string;
  list_id : string;
  contributor_id : Z;
  created_at : Z
}.
End DbUserListContributor.

(** Modelled from the spec: the entity class [DbUser] (user.entity.ts), the
    identity referenced by [contributor_id]; this layer only references
    it. *)
Module DbUser.
Record t : Type := mk {
  id : Z;
  login : string
}.
End DbUser.

(** Modelled from the spec: [PageOptionsDto] (common/dtos), the pagination
    options of section 4.3: page, limit, orderBy and order. *)
Inductive OrderDirection : Type := ASC | DESC.

Module PageOptionsDto.
Record t : Type := mk {
  page : Z;
  limit : Z;
  orderBy : string;
  order : OrderDirection
}.
End PageOptionsDto.

(** Modelled from the spec: [PageDto] (common/dtos), the page envelope of
    section 4.3: the items of the page, the total item count, the page
    number and the page count. *)
Module PageDto.
Record t (A : Type) : Type := mk {
  items : list A;
  totalItems : Z;
  page : Z;
  totalPages : Z
}.
Arguments mk {A}.
Arguments items {A}.
Arguments totalItems {A}.
Arguments page {A}.
Arguments totalPages {A}.
End PageDto.

(** [CreateUserListDto] and [CollaboratorsDto], with the fields the
    controller reads from them. *)
Module CreateUserListDto.
Record t : Type := mk {
  name : string;
  is_public : bool;
  contributors : list Z
}.
End CreateUserListDto.

Module CollaboratorsDto.
Record t : Type := mk {
  contributors : list Z
}.
End CollaboratorsDto.

(** ** The service interface

  [UserListService] as the controller uses it: one field per method the
  controller calls, with the argument order of the call sites. *)

Module UserListService.
Record t (Store FilterListContributorsDto : Type) : Type := mk {
  findAllByUserId :
    PageOptionsDto.t -> Z -> Async Store (PageDto.t DbUserList.t);
  addUserList : Z -> CreateUserListDto.t -> Async Store DbUserList.t;
  addUserListContributor :
    string -> Z -> Async Store DbUserListContributor.t;
  findPublicOneById : string -> Z -> Async Store DbUserList.t;
  findOneById : string -> Z -> Async Store DbUserList.t;
  updateUserList : string -> DbUserList.partial -> Async Store unit;
  deleteUserList : string -> Async Store unit;
  findContributorsByFilter :
    FilterListContributorsDto -> Async Store (PageDto.t DbUser.t);
  findContributorsByListId :
    PageOptionsDto.t -> string ->
    Async Store (PageDto.t DbUserListContributor.t);
  deleteUserListContributor : string -> string -> Async Store unit
}.
Arguments findAllByUserId {Store FilterListContributorsDto}.
Arguments addUserList {Store FilterListContributorsDto}.
Arguments addUserListContributor {Store FilterListContributorsDto}.
Arguments findPublicOneById {Store FilterListContributorsDto}.
Arguments findOneById {Store FilterListContributorsDto}.
Arguments updateUserList {Store FilterListContributorsDto}.
Arguments deleteUserList {Store FilterListContributorsDto}.
Arguments findContributorsByFilter {Store FilterListContributorsDto}.
Arguments findContributorsByListId {Store FilterListContributorsDto}.
Arguments deleteUserListContributor {Store FilterListContributorsDto}.

(** The same service with another owned look-up. *)
Definition with_findOneById {Store FilterListContributorsDto : Type}
           (lookup : string -> Z -> Async Store DbUserList.t)
           (svc : t Store FilterListContributorsDto)
  : t Store FilterListContributorsDto :=
  {| findAllByUserId := findAllByUserId svc;
     addUserList := addUserList svc;
     addUserListContributor := addUserListContributor svc;
     findPublicOneById := findPublicOneById svc;
     findOneById := lookup;
     updateUserList := updateUserList svc;
     deleteUserList := deleteUserList svc;
     findContributorsByFilter := findContributorsByFilter svc;
     findContributorsByListId := findContributorsByListId svc;
     deleteUserListContributor := deleteUserListContributor svc |}.
End UserListService.

(** ** The controller *)

Section UserListController.
Context {Store FilterListContributorsDto : Type}.

(** [this.userListService] *)
Variable userListService : UserListService.t Store FilterListContributorsDto.

(** The order in which the store serves [n] writes issued together. *)
Variable sched : nat -> list nat.

Definition getListsForUser (userId : Z) (pageOptionsDto : PageOptionsDto.t)
  : Async Store (PageDto.t DbUserList.t) :=
  UserListService.findAllByUserId userListService pageOptionsDto userId.

Definition addListForUser (createUserListDto : CreateUserListDto.t)
           (userId : Z) : Async Store DbUserList.t :=
  let* newList := UserListService.addUserList userListService userId createUserListDto in
  let listContributors :=
    map (fun contributorId =>
           UserListService.addUserListContributor userListService
             (DbUserList.id newList) contributorId)
        (CreateUserListDto.contributors createUserListDto) in
  allSettled (sched (List.length listContributors)) listContributors ;;
  resolve newList.

Definition getUserList (id : string) (userId : Z)
  : Async Store DbUserList.t :=
  UserListService.findPublicOneById userListService id userId.

Definition updateListForUser (updateListDto : CreateUserListDto.t)
           (userId : Z) (listId : string) : Async Store DbUserList.t :=
  let* list := UserListService.findOneById userListService listId userId in
  UserListService.updateUserList userListService (DbUserList.id list)
    {| DbUserList.set_owner_id := None;
       DbUserList.set_name := Some (CreateUserListDto.name updateListDto);
       DbUserList.set_is_public :=
         Some (CreateUserListDto.is_public updateListDto) |} ;;
  UserListService.findOneById userListService (DbUserList.id list) userId.

Definition deleteListForUser (userId : Z) (listId : string)
  : Async Store unit :=
  let* list := UserListService.findOneById userListService listId userId in
  UserListService.deleteUserList userListService (DbUserList.id list) ;;
  resolve tt.

Definition getContributors (pageOptionsDto : FilterListContributorsDto)
  : Async Store (PageDto.t DbUser.t) :=
  UserListService.findContributorsByFilter userListService pageOptionsDto.

Definition getUserListContributors (pageOptionsDto : PageOptionsDto.t)
           (id : string) : Async Store (PageDto.t DbUserListContributor.t) :=
  UserListService.findContributorsByListId userListService pageOptionsDto id.

Definition postUserListContributors
           (updateCollaboratorsDto : CollaboratorsDto.t) (id : string)
  : Async Store (list DbUserListContributor.t) :=
  let contributors :=
    map (fun contributorId =>
           UserListService.addUserListContributor userListService id contributorId)
        (CollaboratorsDto.contributors updateCollaboratorsDto) in
  all (sched (List.length contributors)) contributors.

Definition deleteUserListContributors (id : string)
           (userListContributorId : string) : Async Store unit :=
  UserListService.deleteUserListContributor userListService id
    userListContributorId ;;
  resolve tt.

(** The add attempts issued for a list and a sequence of contributor ids
    (the array built by [contributors.map]), and the log of their outcomes
    in settling order. *)
Definition add_attempts (id : string) (contributorIds : list Z)
  : list (Async Store DbUserListContributor.t) :=
  map (fun contributorId =>
         UserListService.addUserListContributor userListService id
           contributorId)
      contributorIds.

Definition add_log (id : string) (contributorIds : list Z) (s : Store)
  : list (nat * Settled DbUserListContributor.t) :=
  fst (settle (sched (List.length (add_attempts id contributorIds)))
              (add_attempts id contributorIds) s).

End UserListController.

(** ** Routing table

    The [@Get], [@Post], [@Patch] and [@Delete] decorators of the class, in
    the order of their declaration, under the [@Controller("lists")] prefix.
    A request is dispatched to the first route whose method and path pattern
    match (declaration-order matching). *)

Module Routes.

Inductive Method : Type := GET | POST | PATCH | DELETE.

Inductive Segment : Type :=
| Lit (s : string)
| Param (name : string).

Inductive Handler : Type :=
| GetListsForUser
| AddListForUser
| GetUserList
| UpdateListForUser
| DeleteListForUser
| GetContributors
| GetUserListContributors
| PostUserListContributors
| DeleteUserListContributors.

Definition Route : Type := Method * list Segment * Handler.

Definition routes : list Route :=
  [ (GET, [Lit "lists"], GetListsForUser);
    (POST, [Lit "lists"], AddListForUser);
    (GET, [Lit "lists"; Param "id"], GetUserList);
    (PATCH, [Lit "lists"; Param "id"], UpdateListForUser);
    (DELETE, [Lit "lists"; Param "id"], DeleteListForUser);
    (GET, [Lit "lists"; Lit "contributors"], GetContributors);
    (GET, [Lit "lists"; Param "id"; Lit "contributors"],
     GetUserListContributors);
    (POST, [Lit "lists"; Param "id"; Lit "contributors"],
     PostUserListContributors);
    (DELETE, [Lit "lists"; Param "id"; Lit "contributors";
              Param "userListContributorId"],
     DeleteUserListContributors) ].

Definition method_eqb (a b : Method) : bool :=
  match a, b with
  | GET, GET | POST, POST | PATCH, PATCH | DELETE, DELETE => true
  | _, _ => false
  end.

(** A pattern matches a path segment by segment: a literal matches itself,
    a parameter matches any non-empty segment and is bound to it. *)
Fixpoint match_path (pat : list Segment) (path : list string)
  : option (list (string * string)) :=
  match pat, path with
  | [], [] => Some []
  | Lit l :: pat', seg :: path' =>
      if String.eqb l seg then match_path pat' path' else None
  | Param x :: pat', seg :: path' =>
      if String.eqb seg "" then None
      else match match_path pat' path' with
           | Some params => Some ((x, seg) :: params)
           | None => None
           end
  | _, _ => None
  end.

Fixpoint dispatch_in (rs : list Route) (m : Method) (path : list string)
  : option (Handler * list (string * string)) :=
  match rs with
  | [] => None
  | (m', pat, h) :: rs' =>
      if method_eqb m m' then
        match match_path pat path with
        | Some params => Some (h, params)
        | None => dispatch_in rs' m path
        end
      else dispatch_in rs' m path
  end.

Definition dispatch (m : Method) (path : list string)
  : option (Handler * list (string * string)) :=
  dispatch_in routes m path.


End Routes.

(** ** Pagination *)

(** Modelled from the spec: the page count of section 4.3,
    ceil(total / limit), for a positive limit. *)
Definition ceil_div (a b : Z) : Z := (a + b - 1) / b.

(** Modelled from the spec: the slicing done by the paginated queries of
    the service (section 4.3): the items of the requested page, the total
    item count, the page number and the page count; pages are numbered
    from 1. *)
Definition paginate {A} (o : PageOptionsDto.t) (rows : list A) : PageDto.t A :=
  let page := PageOptionsDto.page o in
  let limit := PageOptionsDto.limit o in
  let skip := ((page - 1) * limit)%Z in
  {| PageDto.items := firstn (Z.to_nat limit) (skipn (Z.to_nat skip) rows);
     PageDto.totalItems := Z.of_nat (List.length rows);
     PageDto.page := page;
     PageDto.totalPages := ceil_div (Z.of_nat (List.length rows)) limit |}.

(** What it is for [p] to be the envelope of the page asked by [o] out of
    the sequence [rows]: the items are the rows at the positions of that
    page, the totals count all rows, and the page count is the least number
    of pages of [limit] rows that hold them all. *)
Definition page_envelope {A} (o : PageOptionsDto.t) (rows : list A)
           (p : PageDto.t A) : Prop :=
  let page := PageOptionsDto.page o in
  let limit := PageOptionsDto.limit o in
  let total := Z.of_nat (List.length rows) in
  (forall k, k < Z.to_nat limit ->
     nth_error (PageDto.items p) k
     = nth_error rows (Z.to_nat ((page - 1) * limit) + k))
  /\ Z.of_nat (List.length (PageDto.items p))
     = Z.min limit (Z.max 0 (total - (page - 1) * limit))
  /\ PageDto.totalItems p = total
  /\ PageDto.page p = page
  /\ (total <= PageDto.totalPages p * limit < total + limit)%Z
  /\ ((PageDto.totalPages p < page)%Z -> PageDto.items p = []).

(** Modelled from the spec: the ordering of rows asked for by [orderBy] and
    [order] (section 4.3) is done by the backing store; all that is used of
    it is that it rearranges the rows. *)
Class RowOrder (A : Type) : Type := {
  order_rows : PageOptionsDto.t -> list A -> list A;
  order_rows_perm : forall o rows, Permutation (order_rows o rows) rows
}.

(** ** The service over an in-memory store

    [UserListService] (user-list.service.ts) is injected into the controller
    and is not among the sources.  [Mem] gives its methods over tables held
    in memory, after sections 3, 4.1, 4.2 and 7 of the spec. *)

Module Mem.

(** Modelled from the spec: the backing store of section 5, with the tables
    of lists and of contributor relationships of section 3, the identities
    that [contributor_id] references, the sequence that identifiers are
    drawn from and the clock that stamps [created_at]. *)
Record Store : Type := mkStore {
  lists : list DbUserList.t;
  contributors : list DbUserListContributor.t;
  users : list DbUser.t;
  next_id : nat;
  clock : Z
}.

(** Modelled from the spec: [FilterListContributorsDto]
    (dtos/filter-contributors.dto.ts), the filter and pagination options of
    the contributors query (section 6); what the filter criteria are is left
    open. *)
Module FilterListContributorsDto.
Record t (Criteria : Type) : Type := mk {
  pageOptions : PageOptionsDto.t;
  criteria : Criteria
}.
Arguments mk {Criteria}.
Arguments pageOptions {Criteria}.
Arguments criteria {Criteria}.
End FilterListContributorsDto.

(** Modelled from the spec: identifiers of new rows; they are drawn from a
    sequence and written in decimal. *)
Definition fresh_id (n : nat) : string :=
  NilEmpty.string_of_uint (Nat.to_uint n).

(** Modelled from the spec: the list with a given id (section 4.1). *)
Definition is_list (listId : string) (l : DbUserList.t) : bool :=
  String.eqb (DbUserList.id l) listId.

(** Modelled from the spec: a list owned by a given user (section 4.1). *)
Definition owned_by (userId : Z) (l : DbUserList.t) : bool :=
  Z.eqb (DbUserList.owner_id l) userId.

(** Modelled from the spec: a relationship of a given list (section 4.2). *)
Definition in_list (listId : string) (r : DbUserListContributor.t) : bool :=
  String.eqb (DbUserListContributor.list_id r) listId.

(** Modelled from the spec: the relationship with a given identifier under
    a given list (section 4.2, [remove]). *)
Definition is_contributor (listId relId : string)
           (r : DbUserListContributor.t) : bool :=
  String.eqb (DbUserListContributor.id r) relId && in_list listId r.

(** Modelled from the spec: the identity with a given id (section 3). *)
Definition is_user (userId : Z) (u : DbUser.t) : bool :=
  Z.eqb (DbUser.id u) userId.

(** Modelled from the spec: the partial field update of section 4.1; the
    columns that the object gives are written, the others are kept. *)
Definition apply_partial (p : DbUserList.partial) (l : DbUserList.t)
  : DbUserList.t :=
  {| DbUserList.id := DbUserList.id l;
     DbUserList.owner_id :=
       match DbUserList.set_owner_id p with
       | Some o => o
       | None => DbUserList.owner_id l
       end;
     DbUserList.name :=
       match DbUserList.set_name p with
       | Some n => n
       | None => DbUserList.name l
       end;
     DbUserList.is_public :=
       match DbUserList.set_is_public p with
       | Some b => b
       | None => DbUserList.is_public l
       end;
     DbUserList.created_at := DbUserList.created_at l |}.

Section Service.
Context {Criteria : Type}.
Variable matches : Criteria -> DbUser.t -> bool.
Context {order_lists : RowOrder DbUserList.t}.
Context {order_contributors : RowOrder DbUserListContributor.t}.
Context {order_users : RowOrder DbUser.t}.

(** Modelled from the spec: [UserListService.findAllByUserId], section 4.1
    [listForUser]: the lists owned by the caller, ordered and paginated. *)
Definition findAllByUserId (pageOptionsDto : PageOptionsDto.t) (userId : Z)
  : Async Store (PageDto.t DbUserList.t) :=
  fun s =>
    (Fulfilled
       (paginate pageOptionsDto
          (order_rows pageOptionsDto (filter (owned_by userId) (lists s)))),
     s).

(** Modelled from the spec: [UserListService.addUserList], section 4.1
    [create]: a new list owned by the caller. *)
Definition addUserList (userId : Z) (list : CreateUserListDto.t)
  : Async Store DbUserList.t :=
  fun s =>
    let newUserList :=
      {| DbUserList.id := fresh_id (next_id s);
         DbUserList.owner_id := userId;
         DbUserList.name := CreateUserListDto.name list;
         DbUserList.is_public := CreateUserListDto.is_public list;
         DbUserList.created_at := clock s |} in
    (Fulfilled newUserList,
     {| lists := lists s ++ [newUserList];
        contributors := contributors s;
        users := users s;
        next_id := S (next_id s);
        clock := (clock s + 1)%Z |}).

(** Modelled from the spec: [UserListService.addUserListContributor],
    section 4.2 [add]: inserts a new relationship, with no look-up of an
    existing one for the same pair.  The parent list must exist (a
    relationship has a parent list, section 3) and the contributor id must
    reference an identity (an invalid id is a bad request, section 7). *)
Definition addUserListContributor (listId : string) (contributorId : Z)
  : Async Store DbUserListContributor.t :=
  fun s =>
    if negb (existsb (is_list listId) (lists s)) then
      (Rejected NotFoundException, s)
    else if negb (existsb (is_user contributorId) (users s)) then
      (Rejected BadRequestException, s)
    else
      let newUserListContributor :=
        {| DbUserListContributor.id := fresh_id (next_id s);
           DbUserListContributor.list_id := listId;
           DbUserListContributor.contributor_id := contributorId;
           DbUserListContributor.created_at := clock s |} in
      (Fulfilled newUserListContributor,
       {| lists := lists s;
          contributors := contributors s ++ [newUserListContributor];
          users := users s;
          next_id := S (next_id s);
          clock := (clock s + 1)%Z |}).

(** Modelled from the spec: [UserListService.findPublicOneById], section
    4.1 [getOne]: the list if it is public or owned by the caller, not found
    otherwise. *)
Definition findPublicOneById (id : string) (userId : Z)
  : Async Store DbUserList.t :=
  fun s =>
    match find (fun l => is_list id l
                         && (DbUserList.is_public l || owned_by userId l))
               (lists s) with
    | Some item => (Fulfilled item, s)
    | None => (Rejected NotFoundException, s)
    end.

(** Modelled from the spec: [UserListService.findOneById], section 4.1
    [getOneOwned]: not found unless the caller is the owner. *)
Definition findOneById (id : string) (userId : Z)
  : Async Store DbUserList.t :=
  fun s =>
    match find (fun l => is_list id l && owned_by userId l) (lists s) with
    | Some item => (Fulfilled item, s)
    | None => (Rejected NotFoundException, s)
    end.

(** Modelled from the spec: [UserListService.updateUserList], section 4.1
    [update]: a partial field update of the list with the given id. *)
Definition updateUserList (listId : string) (list : DbUserList.partial)
  : Async Store unit :=
  fun s =>
    (Fulfilled tt,
     {| lists := map (fun l => if is_list listId l
                               then apply_partial list l else l)
                     (lists s);
        contributors := contributors s;
        users := users s;
        next_id := next_id s;
        clock := clock s |}).

(** Modelled from the spec: [UserListService.deleteUserList], section 4.1
    [delete]: removes the list and, in cascade, its relationships. *)
Definition deleteUserList (listId : string) : Async Store unit :=
  fun s =>
    (Fulfilled tt,
     {| lists := filter (fun l => negb (is_list listId l)) (lists s);
        contributors :=
          filter (fun r => negb (in_list listId r)) (contributors s);
        users := users s;
        next_id := next_id s;
        clock := clock s |}).

(** Modelled from the spec: [UserListService.findContributorsByFilter],
    section 4.2 [listContributors]: the identities that match the filter,
    ordered and paginated. *)
Definition findContributorsByFilter
           (pageOptionsDto : FilterListContributorsDto.t Criteria)
  : Async Store (PageDto.t DbUser.t) :=
  fun s =>
    let o := FilterListContributorsDto.pageOptions pageOptionsDto in
    (Fulfilled
       (paginate o
          (order_rows o
             (filter (matches (FilterListContributorsDto.criteria
                                 pageOptionsDto))
                     (users s)))),
     s).

(** Modelled from the spec: [UserListService.findContributorsByListId],
    section 4.2 [listContributorsForList]: the relationships of one list,
    ordered and paginated; no check of the caller's right to see the
    list. *)
Definition findContributorsByListId (pageOptionsDto : PageOptionsDto.t)
           (listId : string) : Async Store (PageDto.t DbUserListContributor.t) :=
  fun s =>
    (Fulfilled
       (paginate pageOptionsDto
          (order_rows pageOptionsDto
             (filter (in_list listId) (contributors s)))),
     s).

(** Modelled from the spec: [UserListService.deleteUserListContributor],
    section 4.2 [remove]: deletes the relationship with the given identifier
    under the given list; not found when there is none. *)
Definition deleteUserListContributor (listId : string)
           (userListContributorId : string) : Async Store unit :=
  fun s =>
    if existsb (is_contributor listId userListContributorId) (contributors s)
    then
      (Fulfilled tt,
       {| lists := lists s;
          contributors :=
            filter (fun r =>
                      negb (is_contributor listId userListContributorId r))
                   (contributors s);
          users := users s;
          next_id := next_id s;
          clock := clock s |})
    else (Rejected NotFoundException, s).

(** The in-memory service, as the controller receives it. *)
Definition service
  : UserListService.t Store (FilterListContributorsDto.t Criteria) :=
  {| UserListService.findAllByUserId := findAllByUserId;
     UserListService.addUserList := addUserList;
     UserListService.addUserListContributor := addUserListContributor;
     UserListService.findPublicOneById := findPublicOneById;
     UserListService.findOneById := findOneById;
     UserListService.updateUserList := updateUserList;
     UserListService.deleteUserList := deleteUserList;
     UserListService.findContributorsByFilter := findContributorsByFilter;
     UserListService.findContributorsByListId := findContributorsByListId;
     UserListService.deleteUserListContributor := deleteUserListContributor |}.

(** *** The API as a transition system over the store

    A request names a handler of the controller with its arguments;
    [handle] is the store left once the request has been served, given the
    order in which the store serves the writes that the request issues
    together. *)

Inductive Request : Type :=
| CallGetListsForUser (userId : Z) (pageOptionsDto : PageOptionsDto.t)
| CallAddListForUser (createUserListDto : CreateUserListDto.t) (userId : Z)
| CallGetUserList (id : string) (userId : Z)
| CallUpdateListForUser (updateListDto : CreateUserListDto.t) (userId : Z)
                        (listId : string)
| CallDeleteListForUser (userId : Z) (listId : string)
| CallGetContributors (pageOptionsDto : FilterListContributorsDto.t Criteria)
| CallGetUserListContributors (pageOptionsDto : PageOptionsDto.t) (id : string)
| CallPostUserListContributors (updateCollaboratorsDto : CollaboratorsDto.t)
                               (id : string)
| CallDeleteUserListContributors (id : string) (userListContributorId : string).

Definition handle (sched : nat -> list nat) (req : Request) (s : Store)
  : Store :=
  match req with
  | CallGetListsForUser userId o => snd (getListsForUser service userId o s)
  | CallAddListForUser dto userId =>
      snd (addListForUser service sched dto userId s)
  | CallGetUserList id userId => snd (getUserList service id userId s)
  | CallUpdateListForUser dto userId listId =>
      snd (updateListForUser service dto userId listId s)
  | CallDeleteListForUser userId listId =>
      snd (deleteListForUser service userId listId s)
  | CallGetContributors o => snd (getContributors service o s)
  | CallGetUserListContributors o id =>
      snd (getUserListContributors service o id s)
  | CallPostUserListContributors dto id =>
      snd (postUserListContributors service sched dto id s)
  | CallDeleteUserListContributors id relId =>
      snd (deleteUserListContributors service id relId s)
  end.

Fixpoint run (reqs : list ((nat -> list nat) * Request)) (s : Store)
  : Store :=
  match reqs with
  | [] => s
  | (sched, req) :: rest => run rest (handle sched req s)
  end.

End Service.

(** Identifiers in use come from the sequence and are not used twice. *)
Definition wf (s : Store) : Prop :=
  NoDup (map DbUserList.id (lists s))
  /\ forall l, In l (lists s) ->
               exists n, DbUserList.id l = fresh_id n /\ n < next_id s.

(** [extends s s']: every list of [s'] is either a list of [s] with the
    same id and the same owner, or a list created since, under an
    identifier that [s] had not yet drawn. *)
Definition extends (s s' : Store) : Prop :=
  next_id s <= next_id s'
  /\ forall l', In l' (lists s') ->
        (exists l, In l (lists s)
                   /\ DbUserList.id l = DbUserList.id l'
                   /\ DbUserList.owner_id l = DbUserList.owner_id l')
        \/ (exists n, DbUserList.id l' = fresh_id n
                      /\ next_id s <= n < next_id s').

(** The relationships created by the adds of a log, in settling order. *)
Fixpoint created (log : list (nat * Settled DbUserListContributor.t))
  : list DbUserListContributor.t :=
  match log with
  | [] => []
  | (_, Fulfilled r) :: rest => r :: created rest
  | (_, Rejected _) :: rest => created rest
  end.

End Mem.

(** ** Outcomes of a log *)

Definition all_fulfilled {A} (log : list (nat * Settled A)) : Prop :=
  forall i o, In (i, o) log -> exists a, o = Fulfilled a.

Definition first_rejected_with {A} (log : list (nat * Settled A))
           (e : HttpException) : Prop :=
  exists pre i post,
    log = pre ++ (i, Rejected e) :: post /\ all_fulfilled pre.

(** ** Sample data *)

Module Sample.

(** Rows in creation order, ascending or descending. *)
Definition creation_order (A : Type) : RowOrder A :=
  {| order_rows := fun o rows =>
       match PageOptionsDto.order o with ASC => rows | DESC => rev rows end;
     order_rows_perm := fun o rows =>
       match PageOptionsDto.order o as d
             return Permutation (match d with ASC => rows | DESC => rev rows end)
                                rows
       with
       | ASC => Permutation_refl rows
       | DESC => Permutation_sym (Permutation_rev rows)
       end |}.

(** Contributors are filtered by login. *)
Definition by_login (login : string) (u : DbUser.t) : bool :=
  String.eqb (DbUser.login u) login.

Definition service : UserListService.t Mem.Store
                       (Mem.FilterListContributorsDto.t string) :=
  @Mem.service string by_login (creation_order _) (creation_order _)
               (creation_order _).

(** Writes issued together are served in the order of issue, or in the
    reverse order. *)
Definition in_order (n : nat) : list nat := seq 0 n.
Definition reversed (n : nat) : list nat := rev (seq 0 n).

Definition alice : Z := 1.
Definition bob : Z := 2.
Definition carol : Z := 7.
Definition nobody : Z := 99.

Definition alices_list : DbUserList.t :=
  {| DbUserList.id := "0"; DbUserList.owner_id := alice;
     DbUserList.name := "reviewers"; DbUserList.is_public := false;
     DbUserList.created_at := 100 |}.

Definition carol_in_alices_list : DbUserListContributor.t :=
  {| DbUserListContributor.id := "1";
     DbUserListContributor.list_id := "0";
     DbUserListContributor.contributor_id := carol;
     DbUserListContributor.created_at := 101 |}.

Definition store : Mem.Store :=
  {| Mem.lists := [alices_list];
     Mem.contributors := [carol_in_alices_list];
     Mem.users := [ {| DbUser.id := alice; DbUser.login := "alice" |};
                    {| DbUser.id := bob; DbUser.login := "bob" |};
                    {| DbUser.id := carol; DbUser.login := "carol" |} ];
     Mem.next_id := 2;
     Mem.clock := 102 |}.

Definition page_options (page limit : Z) : PageOptionsDto.t :=
  {| PageOptionsDto.page := page; PageOptionsDto.limit := limit;
     PageOptionsDto.orderBy := "created_at"; PageOptionsDto.order := ASC |}.

Definition run
  : list ((nat -> list nat) * Mem.Request (Criteria := string))
    -> Mem.Store -> Mem.Store :=
  @Mem.run string by_login (creation_order _) (creation_order _)
           (creation_order _).

(** A private list of alice's is renamed and published by her. *)
Definition publish : CreateUserListDto.t :=
  {| CreateUserListDto.name := "maintainers";
     CreateUserListDto.is_public := true;
     CreateUserListDto.contributors := [] |}.

(** A new list seeded with a contributor id that references nobody. *)
Definition seeded : CreateUserListDto.t :=
  {| CreateUserListDto.name := "n";
     CreateUserListDto.is_public := true;
     CreateUserListDto.contributors := [nobody] |}.

(** A bulk add whose second id references nobody. *)
Definition bulk : CollaboratorsDto.t :=
  {| CollaboratorsDto.contributors := [carol; nobody; bob] |}.

Definition only_bob : CollaboratorsDto.t :=
  {| CollaboratorsDto.contributors := [bob] |}.

End Sample.

(** * Properties *)

(** ** Promises *)

Section PromiseFacts.
Context {Store A : Type}.
Implicit Types (ps : list (Async Store A)) (log : list (nat * Settled A)).

Lemma filter_all_true {X} (f : X -> bool) (l : list X) :
  (forall x, In x l -> f x = true) -> filter f l = l.
Proof.
  induction l as [|x l IH]; simpl; intros H; [reflexivity|].
  rewrite (H x (or_introl eq_refl)), IH; auto.
Qed.

Lemma settle_indices sched ps s :
  map fst (fst (settle sched ps s))
  = filter (fun i => Nat.ltb i (List.length ps)) sched.
Proof.
  revert s; induction sched as [|i rest IH]; intros s; simpl; [reflexivity|].
  destruct (nth_error ps i) as [p|] eqn:E.
  - assert (i < List.length ps) as Hi
        by (apply nth_error_Some; congruence).
    apply Nat.ltb_lt in Hi; rewrite Hi.
    destruct (p s) as [o s1]; specialize (IH s1).
    destruct (settle rest ps s1) as [log s2]; simpl in *; now rewrite IH.
  - apply nth_error_None in E.
    destruct (Nat.ltb_spec i (List.length ps)); [lia|]; apply IH.
Qed.

Lemma settle_covers sched ps s :
  Permutation sched (seq 0 (List.length ps)) ->
  map fst (fst (settle sched ps s)) = sched.
Proof.
  intros P; rewrite settle_indices; apply filter_all_true.
  intros i Hi; apply Nat.ltb_lt.
  apply (Permutation_in _ P), in_seq in Hi; lia.
Qed.

(** Every logged outcome is the outcome of running the promise of that
    index at the store reached when its turn came. *)
Lemma settle_entry_ran sched ps s i o :
  In (i, o) (fst (settle sched ps s)) ->
  exists p s0 s1, nth_error ps i = Some p /\ p s0 = (o, s1).
Proof.
  revert s; induction sched as [|j rest IH]; intros s; simpl; [tauto|].
  destruct (nth_error ps j) as [p|] eqn:E; [|apply IH].
  destruct (p s) as [o1 s1] eqn:Ep.
  specialize (IH s1); destruct (settle rest ps s1) as [log s2]; simpl in *.
  intros [H|H]; [|auto].
  inversion H; subst; eauto.
Qed.

Lemma first_rejection_None log :
  first_rejection log = None <-> all_fulfilled log.
Proof.
  unfold all_fulfilled; induction log as [|[j [a|e]] log IH]; simpl.
  - tauto.
  - rewrite IH; split.
    + intros H i o [E|E]; [inversion E; eauto | eauto].
    + intros H i o E; eauto.
  - split; [discriminate|].
    intros H; destruct (H j (Rejected e) (or_introl eq_refl)); discriminate.
Qed.

Lemma first_rejection_Some log e :
  first_rejection log = Some e <-> first_rejected_with log e.
Proof.
  unfold first_rejected_with; induction log as [|[j [a|e1]] log IH]; simpl.
  - split; [discriminate|].
    intros (pre & i & post & E & _); destruct pre; discriminate.
  - rewrite IH; split.
    + intros (pre & i & post & -> & F).
      exists ((j, Fulfilled a) :: pre), i, post; split; [reflexivity|].
      intros k o [E|E]; [inversion E; eauto | eauto].
    + intros (pre & i & post & E & F).
      destruct pre as [|x pre]; simpl in E; inversion E; subst.
      exists pre, i, post; split; [reflexivity|].
      intros k o Hk; apply (F k o); now right.
  - split.
    + intros E; inversion E; subst.
      exists [], j, log; split; [reflexivity|]; intros ? ? [].
    + intros (pre & i & post & E & F).
      destruct pre as [|x pre]; simpl in E; inversion E; subst;
        [reflexivity|].
      destruct (F j (Rejected e1) (or_introl eq_refl)); discriminate.
Qed.

Lemma fulfilled_at_In log i a :
  fulfilled_at log i = Some a -> In (i, Fulfilled a) log.
Proof.
  induction log as [|[j [b|e]] log IH]; simpl; [discriminate| |auto].
  destruct (Nat.eqb_spec i j); [|auto].
  intros E; inversion E; subst; auto.
Qed.

Lemma fulfilled_at_total log i :
  all_fulfilled log -> In i (map fst log) ->
  exists a, fulfilled_at log i = Some a.
Proof.
  induction log as [|[j o] log IH]; simpl; intros F H; [tauto|].
  destruct (F j o (or_introl eq_refl)) as [b ->].
  destruct (Nat.eqb_spec i j); [eauto|].
  destruct H as [H|H]; [congruence|].
  apply IH; [|assumption].
  intros k o Hk; apply (F k o); now right.
Qed.

Lemma collect_total {X} (h : X -> option A) (l : list X) :
  (forall x, In x l -> exists a, h x = Some a) ->
  let out := flat_map (fun x => match h x with
                                | Some a => [a]
                                | None => []
                                end) l in
  List.length out = List.length l
  /\ forall k x, nth_error l k = Some x ->
                 exists a, h x = Some a /\ nth_error out k = Some a.
Proof.
  induction l as [|y l IH]; simpl; intros H.
  - split; [reflexivity|]; intros [|k] x E; discriminate.
  - destruct (H y (or_introl eq_refl)) as [a Ea]; rewrite Ea; simpl.
    destruct IH as [IHl IHn]; [auto|].
    split; [now rewrite IHl|].
    intros [|k] x E; simpl in *; [inversion E; subst; eauto | auto].
Qed.

Lemma values_in_order_total n log :
  all_fulfilled log -> Permutation (map fst log) (seq 0 n) ->
  List.length (values_in_order n log) = n
  /\ forall i, i < n ->
               exists a, nth_error (values_in_order n log) i = Some a
                         /\ In (i, Fulfilled a) log.
Proof.
  intros F P; unfold values_in_order.
  destruct (collect_total (fulfilled_at log) (seq 0 n)) as [Hl Hn].
  - intros i Hi; apply fulfilled_at_total; [assumption|].
    apply (Permutation_in _ (Permutation_sym P)); assumption.
  - split; [now rewrite Hl, length_seq|].
    intros i Hi; destruct (Hn i i) as (a & Ea & En).
    + rewrite nth_error_nth' with (d := 0) by (rewrite length_seq; lia).
      now rewrite seq_nth.
    + exists a; split; [assumption | now apply fulfilled_at_In].
Qed.

(** [Promise.all] and [Promise.allSettled] leave the same store. *)
Lemma all_store_allSettled sched ps s :
  snd (all sched ps s) = snd (allSettled sched ps s).
Proof.
  unfold all, allSettled; destruct (settle sched ps s) as [log s1].
  now destruct (first_rejection log).
Qed.

Lemma all_store sched ps s :
  snd (all sched ps s) = snd (settle sched ps s).
Proof.
  unfold all; destruct (settle sched ps s) as [log s1].
  now destruct (first_rejection log).
Qed.

End PromiseFacts.

(** ** The controller, for any service *)

Section ControllerFacts.
Context {Store FilterListContributorsDto : Type}.
Variable svc : UserListService.t Store FilterListContributorsDto.
Variable sched : nat -> list nat.
Hypothesis sched_perm : forall n, Permutation (sched n) (seq 0 n).

Lemma add_log_indices id ids s :
  map fst (add_log svc sched id ids s)
  = sched (List.length (add_attempts svc id ids)).
Proof. unfold add_log; apply settle_covers, sched_perm. Qed.

Lemma add_log_covers id ids s :
  Permutation (map fst (add_log svc sched id ids s))
              (seq 0 (List.length ids)).
Proof.
  rewrite add_log_indices; unfold add_attempts; rewrite length_map.
  apply sched_perm.
Qed.

(** Every contributor id of the request has its add attempted, and the
    log holds the outcome of that very call. *)
Lemma add_log_attempted id ids s i c :
  nth_error ids i = Some c ->
  exists o s0 s1,
    In (i, o) (add_log svc sched id ids s)
    /\ UserListService.addUserListContributor svc id c s0 = (o, s1).
Proof.
  intros E.
  assert (In i (map fst (add_log svc sched id ids s))) as Hi.
  { apply (Permutation_in _ (Permutation_sym (add_log_covers id ids s))).
    apply in_seq; split; [lia|]; simpl; apply nth_error_Some; congruence. }
  apply in_map_iff in Hi; destruct Hi as ([j o] & Ej & Hin); simpl in Ej.
  subst j; exists o.
  destruct (settle_entry_ran _ _ _ _ _ Hin) as (p & s0 & s1 & Ep & Er).
  unfold add_attempts in Ep; rewrite nth_error_map, E in Ep.
  inversion Ep; subst; eauto.
Qed.

Lemma postUserListContributors_result dto id s :
  fst (postUserListContributors svc sched dto id s)
  = match first_rejection
            (add_log svc sched id (CollaboratorsDto.contributors dto) s) with
    | Some e => Rejected e
    | None =>
        Fulfilled
          (values_in_order
             (List.length (CollaboratorsDto.contributors dto))
             (add_log svc sched id (CollaboratorsDto.contributors dto) s))
    end.
Proof.
  unfold postUserListContributors, add_log, add_attempts, all.
  destruct (settle _ _ s) as [log s1]; simpl.
  destruct (first_rejection log); simpl; [reflexivity|].
  now rewrite length_map.
Qed.

Lemma postUserListContributors_store dto id s :
  snd (postUserListContributors svc sched dto id s)
  = snd (settle (sched (List.length
                          (add_attempts svc id
                             (CollaboratorsDto.contributors dto))))
                (add_attempts svc id (CollaboratorsDto.contributors dto)) s).
Proof. unfold postUserListContributors; apply all_store. Qed.

(** C2: the bulk contributor add is all-or-nothing in its result.  Every
    contributor id has its add attempted; if an attempt fails, the request
    fails with the failure that came first; if every attempt succeeds, the
    request returns the created relationships, one per contributor id and in
    the order of the ids; a fulfilled request never carries fewer. *)
Theorem postUserListContributors_all_or_nothing dto id s :
  let ids := CollaboratorsDto.contributors dto in
  let log := add_log svc sched id ids s in
  let result := fst (postUserListContributors svc sched dto id s) in
  (forall i c, nth_error ids i = Some c ->
     exists o s0 s1,
       In (i, o) log
       /\ UserListService.addUserListContributor svc id c s0 = (o, s1))
  /\ (forall e, first_rejected_with log e -> result = Rejected e)
  /\ (~ all_fulfilled log ->
      exists e, first_rejected_with log e /\ result = Rejected e)
  /\ (all_fulfilled log ->
      exists rels,
        result = Fulfilled rels
        /\ List.length rels = List.length ids
        /\ forall i, i < List.length ids ->
             exists r, nth_error rels i = Some r
                       /\ In (i, Fulfilled r) log)
  /\ (forall rels, result = Fulfilled rels ->
        all_fulfilled log /\ List.length rels = List.length ids).
Proof.
  intros ids log result.
  assert (result
          = match first_rejection log with
            | Some e => Rejected e
            | None => Fulfilled (values_in_order (List.length ids) log)
            end) as R by apply postUserListContributors_result.
  assert (all_fulfilled log ->
          List.length (values_in_order (List.length ids) log)
          = List.length ids
          /\ forall i, i < List.length ids ->
               exists r, nth_error (values_in_order (List.length ids) log) i
                         = Some r
                         /\ In (i, Fulfilled r) log) as V.
  { intros F; apply values_in_order_total; [assumption|].
    apply add_log_covers. }
  repeat split.
  - intros i c; apply add_log_attempted.
  - intros e He; apply first_rejection_Some in He; now rewrite R, He.
  - intros N; destruct (first_rejection log) as [e|] eqn:E.
    + exists e; split; [now apply first_rejection_Some | assumption].
    + destruct N; now apply first_rejection_None.
  - intros F; pose proof F as F'; apply first_rejection_None in F'.
    rewrite F' in R; destruct (V F) as [Vl Vn]; eauto.
  - destruct (first_rejection log) eqn:E; [congruence|].
    now apply first_rejection_None.
  - destruct (first_rejection log) eqn:E; [congruence|].
    apply first_rejection_None in E; destruct (V E) as [Vl _]; congruence.
Qed.

(** Once the list record is created, the request no longer depends on the
    outcomes of the contributor adds. *)
Lemma addListForUser_after_create dto userId s newList s1 :
  UserListService.addUserList svc userId dto s = (Fulfilled newList, s1) ->
  addListForUser svc sched dto userId s
  = (Fulfilled newList,
     snd (settle (sched (List.length
                           (add_attempts svc (DbUserList.id newList)
                              (CreateUserListDto.contributors dto))))
                 (add_attempts svc (DbUserList.id newList)
                    (CreateUserListDto.contributors dto)) s1)).
Proof.
  intros E; unfold addListForUser, await; rewrite E.
  unfold allSettled, add_attempts.
  destruct (settle _ _ s1) as [log s2]; reflexivity.
Qed.

(** C3: when the list record is created, the create request fulfils with
    that list, whatever the outcomes of the contributor adds: no rejection
    of an add reaches the caller, even if every add is rejected. *)
Theorem addListForUser_tolerates_failed_adds dto userId s newList s1 :
  UserListService.addUserList svc userId dto s = (Fulfilled newList, s1) ->
  fst (addListForUser svc sched dto userId s) = Fulfilled newList
  /\ forall log,
       log = fst (settle
                    (sched (List.length
                              (add_attempts svc (DbUserList.id newList)
                                 (CreateUserListDto.contributors dto))))
                    (add_attempts svc (DbUserList.id newList)
                       (CreateUserListDto.contributors dto)) s1) ->
       forall e, first_rejected_with log e ->
                 fst (addListForUser svc sched dto userId s) <> Rejected e.
Proof.
  intros E; rewrite (addListForUser_after_create _ _ _ _ _ E); simpl.
  split; [reflexivity | discriminate].
Qed.

(** The update and delete handlers resolve the list through the owned
    look-up first: its rejection is the rejection of the request, and
    nothing is written. *)
Lemma updateListForUser_guarded dto userId listId s e s1 :
  UserListService.findOneById svc listId userId s = (Rejected e, s1) ->
  updateListForUser svc dto userId listId s = (Rejected e, s1).
Proof. intros E; unfold updateListForUser, await; now rewrite E. Qed.

Lemma deleteListForUser_guarded userId listId s e s1 :
  UserListService.findOneById svc listId userId s = (Rejected e, s1) ->
  deleteListForUser svc userId listId s = (Rejected e, s1).
Proof. intros E; unfold deleteListForUser, await; now rewrite E. Qed.

(** The update handler returns what the owned look-up reads once the write
    is done. *)
Lemma updateListForUser_read_after_write dto userId listId s list s1 s2 :
  UserListService.findOneById svc listId userId s = (Fulfilled list, s1) ->
  UserListService.updateUserList svc (DbUserList.id list)
    {| DbUserList.set_owner_id := None;
       DbUserList.set_name := Some (CreateUserListDto.name dto);
       DbUserList.set_is_public := Some (CreateUserListDto.is_public dto) |}
    s1 = (Fulfilled tt, s2) ->
  updateListForUser svc dto userId listId s
  = UserListService.findOneById svc (DbUserList.id list) userId s2.
Proof.
  intros E1 E2; unfold updateListForUser, await; now rewrite E1, E2.
Qed.

End ControllerFacts.

(** ** Pagination *)

Lemma ceil_div_spec (a b : Z) :
  (0 <= a)%Z -> (1 <= b)%Z ->
  (a <= ceil_div a b * b < a + b)%Z.
Proof.
  intros Ha Hb; unfold ceil_div.
  pose proof (Z.div_mod (a + b - 1) b ltac:(lia)) as D.
  pose proof (Z.mod_pos_bound (a + b - 1) b ltac:(lia)) as M.
  nia.
Qed.

Lemma nth_error_firstn_lt {A} (l : list A) (n k : nat) :
  k < n -> nth_error (firstn n l) k = nth_error l k.
Proof.
  revert l k; induction n as [|n IH]; intros l k H; [lia|].
  destruct l as [|x l]; [reflexivity|].
  destruct k as [|k]; simpl; [reflexivity | apply IH; lia].
Qed.

Lemma nth_error_skipn_plus {A} (l : list A) (n k : nat) :
  nth_error (skipn n l) k = nth_error l (n + k).
Proof.
  revert l; induction n as [|n IH]; intros l; [reflexivity|].
  destruct l as [|x l]; simpl; [now destruct k | apply IH].
Qed.

Lemma paginate_page_envelope {A} (o : PageOptionsDto.t) (rows : list A) :
  (1 <= PageOptionsDto.page o)%Z -> (1 <= PageOptionsDto.limit o)%Z ->
  page_envelope o rows (paginate o rows).
Proof.
  intros Hp Hl; unfold page_envelope, paginate; simpl.
  set (page := PageOptionsDto.page o) in *.
  set (limit := PageOptionsDto.limit o) in *.
  set (total := Z.of_nat (List.length rows)).
  assert (0 <= (page - 1) * limit)%Z as Hs by nia.
  assert (Z.of_nat (List.length
                      (firstn (Z.to_nat limit)
                              (skipn (Z.to_nat ((page - 1) * limit)) rows)))
          = Z.min limit (Z.max 0 (total - (page - 1) * limit))) as Hlen.
  { rewrite length_firstn, length_skipn; unfold total; lia. }
  pose proof (ceil_div_spec total limit ltac:(unfold total; lia) Hl) as C.
  repeat split; try (apply C); try assumption.
  - intros k Hk; rewrite nth_error_firstn_lt by assumption.
    apply nth_error_skipn_plus.
  - intros Hlast.
    assert (total - (page - 1) * limit <= 0)%Z by nia.
    apply length_zero_iff_nil; lia.
Qed.

(** ** The service over the in-memory store *)

Lemma fresh_id_inj (n m : nat) : Mem.fresh_id n = Mem.fresh_id m -> n = m.
Proof.
  unfold Mem.fresh_id; intros E.
  apply DecimalNat.Unsigned.to_uint_inj.
  assert (Some (Nat.to_uint n) = Some (Nat.to_uint m)) as H
      by (rewrite <- !NilEmpty.usu; now rewrite E).
  now inversion H.
Qed.

Lemma find_map_stable {X} (p : X -> bool) (f : X -> X) (l : list X) :
  (forall x, p (f x) = p x) ->
  find p (map f l) = option_map f (find p l).
Proof.
  intros H; induction l as [|x l IH]; simpl; [reflexivity|].
  rewrite H; now destruct (p x).
Qed.

Lemma find_none_iff {X} (p : X -> bool) (l : list X) :
  find p l = None <-> forall x, In x l -> p x = false.
Proof.
  split; [apply find_none|].
  induction l as [|x l IH]; simpl; intros H; [reflexivity|].
  rewrite (H x (or_introl eq_refl)); auto.
Qed.

(** What one add does to the store: nothing when it is rejected, one more
    relationship with the next identifier when it is fulfilled. *)
Lemma addUserListContributor_effect listId contributorId s :
  let '(o, s1) := Mem.addUserListContributor listId contributorId s in
  Mem.lists s1 = Mem.lists s
  /\ Mem.users s1 = Mem.users s
  /\ Mem.next_id s <= Mem.next_id s1
  /\ Mem.contributors s1 = Mem.contributors s ++ Mem.created [(0, o)].
Proof.
  unfold Mem.addUserListContributor.
  destruct (negb (existsb _ (Mem.lists s))); simpl;
    [now rewrite app_nil_r|].
  destruct (negb (existsb _ (Mem.users s))); simpl;
    [now rewrite app_nil_r|].
  auto.
Qed.

Lemma settle_adds_effect (order : list nat) listId ids s :
  let '(log, s1) :=
    settle order (map (Mem.addUserListContributor listId) ids) s in
  Mem.lists s1 = Mem.lists s
  /\ Mem.users s1 = Mem.users s
  /\ Mem.next_id s <= Mem.next_id s1
  /\ Mem.contributors s1 = Mem.contributors s ++ Mem.created log.
Proof.
  revert s; induction order as [|i rest IH]; intros s; simpl.
  - now rewrite app_nil_r.
  - destruct (nth_error _ i) as [p|] eqn:E; [|apply IH].
    apply nth_error_In, in_map_iff in E; destruct E as (c & <- & _).
    pose proof (addUserListContributor_effect listId c s) as H1.
    destruct (Mem.addUserListContributor listId c s) as [o s1].
    specialize (IH s1); destruct (settle rest _ s1) as [log s2].
    destruct H1 as (L1 & U1 & N1 & C1), IH as (L2 & U2 & N2 & C2).
    repeat split; try congruence; try lia.
    rewrite C2, C1, <- app_assoc; f_equal.
    simpl; now destruct o.
Qed.

Lemma created_In log i r :
  In (i, Fulfilled r) log -> In r (Mem.created log).
Proof.
  induction log as [|[j [a|e]] log IH]; simpl; [tauto| |].
  - intros [E|E]; [inversion E; auto | auto].
  - intros [E|E]; [discriminate | auto].
Qed.

Section MemFacts.
Context {Criteria : Type}.
Variable matches : Criteria -> DbUser.t -> bool.
Context {order_lists : RowOrder DbUserList.t}.
Context {order_contributors : RowOrder DbUserListContributor.t}.
Context {order_users : RowOrder DbUser.t}.
Variable sched : nat -> list nat.

Local Abbreviation service := (Mem.service matches).

(** C5: a bulk add that fails leaves in the store every relationship that
    its successful attempts created: the relationships after the request are
    those before it followed by the created ones, none is taken back, and
    the store has changed as soon as one attempt succeeded. *)
Theorem postUserListContributors_no_rollback dto id s e :
  fst (postUserListContributors service sched dto id s) = Rejected e ->
  let log := add_log service sched id (CollaboratorsDto.contributors dto) s in
  let s' := snd (postUserListContributors service sched dto id s) in
  Mem.contributors s' = Mem.contributors s ++ Mem.created log
  /\ (forall i r, In (i, Fulfilled r) log -> In r (Mem.contributors s'))
  /\ ((exists i r, In (i, Fulfilled r) log) -> s' <> s).
Proof.
  intros _ log s'.
  assert (Mem.contributors s' = Mem.contributors s ++ Mem.created log) as C.
  { unfold s', log, add_log; rewrite postUserListContributors_store.
    unfold add_attempts; simpl.
    pose proof (settle_adds_effect
                  (sched (List.length
                            (map (Mem.addUserListContributor id)
                                 (CollaboratorsDto.contributors dto))))
                  id (CollaboratorsDto.contributors dto) s) as H.
    destruct (settle _ _ s) as [l s1]; simpl; tauto. }
  split; [assumption|]; split.
  - intros i r H; rewrite C; apply in_or_app; right.
    now apply created_In with i.
  - intros (i & r & H) E; rewrite E in C.
    apply created_In in H.
    apply (f_equal (@List.length _)) in C; rewrite length_app in C.
    destruct (Mem.created log); [destruct H | simpl in C; lia].
Qed.

(** C6: an update by the owner fulfils with the list as it is read back
    after the write: name and visibility are those of the request, the other
    fields are those of the list before, and the returned record is the one
    now in the store, not the one fetched for the ownership check. *)
Theorem updateListForUser_returns_refreshed dto userId listId s list :
  Mem.findOneById listId userId s = (Fulfilled list, s) ->
  let refreshed :=
    {| DbUserList.id := DbUserList.id list;
       DbUserList.owner_id := DbUserList.owner_id list;
       DbUserList.name := CreateUserListDto.name dto;
       DbUserList.is_public := CreateUserListDto.is_public dto;
       DbUserList.created_at := DbUserList.created_at list |} in
  exists s',
    updateListForUser service dto userId listId s = (Fulfilled refreshed, s')
    /\ Mem.findOneById listId userId s' = (Fulfilled refreshed, s')
    /\ In refreshed (Mem.lists s')
    /\ Mem.lists s'
       = map (fun l => if Mem.is_list listId l
                       then {| DbUserList.id := DbUserList.id l;
                               DbUserList.owner_id := DbUserList.owner_id l;
                               DbUserList.name := CreateUserListDto.name dto;
                               DbUserList.is_public :=
                                 CreateUserListDto.is_public dto;
                               DbUserList.created_at :=
                                 DbUserList.created_at l |}
                       else l)
             (Mem.lists s).
Proof.
  intros E refreshed.
  unfold Mem.findOneById in E.
  destruct (find _ (Mem.lists s)) as [l|] eqn:F; [|discriminate].
  inversion E; subst l; clear E.
  pose proof (find_some _ _ F) as [Hin Hp].
  apply andb_true_iff in Hp; destruct Hp as [Hid Hown].
  pose proof Hid as Hid'; apply String.eqb_eq in Hid'; subst listId.
  set (patch := {| DbUserList.set_owner_id := None;
                   DbUserList.set_name := Some (CreateUserListDto.name dto);
                   DbUserList.set_is_public :=
                     Some (CreateUserListDto.is_public dto) |}).
  set (upd := fun l => if Mem.is_list (DbUserList.id list) l
                       then Mem.apply_partial patch l else l).
  assert (forall l, Mem.is_list (DbUserList.id list) (upd l)
                    && Mem.owned_by userId (upd l)
                    = Mem.is_list (DbUserList.id list) l
                      && Mem.owned_by userId l) as St.
  { intros l; unfold upd; destruct (Mem.is_list _ l) eqn:El;
      [|now rewrite El].
    unfold Mem.is_list, Mem.owned_by in *; simpl; now rewrite El. }
  assert (upd list = refreshed) as Eu.
  { unfold upd; rewrite Hid; reflexivity. }
  assert (Mem.findOneById (DbUserList.id list) userId
            {| Mem.lists := map upd (Mem.lists s);
               Mem.contributors := Mem.contributors s;
               Mem.users := Mem.users s;
               Mem.next_id := Mem.next_id s;
               Mem.clock := Mem.clock s |}
          = (Fulfilled refreshed,
             {| Mem.lists := map upd (Mem.lists s);
                Mem.contributors := Mem.contributors s;
                Mem.users := Mem.users s;
                Mem.next_id := Mem.next_id s;
                Mem.clock := Mem.clock s |})) as Reread.
  { unfold Mem.findOneById; simpl.
    rewrite (find_map_stable _ upd _ St), F; simpl; now rewrite Eu. }
  eexists; split; [|split; [|split]].
  - unfold updateListForUser, await; simpl.
    unfold Mem.findOneById at 1; rewrite F.
    unfold Mem.updateUserList; fold patch; fold upd.
    exact Reread.
  - exact Reread.
  - simpl; rewrite <- Eu; now apply in_map.
  - reflexivity.
Qed.

(** C7: the single-list retrieval reads the store only; it fulfils with a
    list of the given id that is public or owned by the caller when there is
    one, and rejects with not-found when there is none, in particular when
    the list exists but is private and owned by someone else. *)
Theorem getUserList_public_or_owned id userId s :
  snd (getUserList service id userId s) = s
  /\ (forall l, fst (getUserList service id userId s) = Fulfilled l ->
        In l (Mem.lists s)
        /\ DbUserList.id l = id
        /\ (DbUserList.is_public l = true \/ DbUserList.owner_id l = userId))
  /\ ((exists l, In l (Mem.lists s)
                 /\ DbUserList.id l = id
                 /\ (DbUserList.is_public l = true
                     \/ DbUserList.owner_id l = userId)) ->
      exists l, fst (getUserList service id userId s) = Fulfilled l)
  /\ ((forall l, In l (Mem.lists s) -> DbUserList.id l = id ->
         DbUserList.is_public l = false /\ DbUserList.owner_id l <> userId) ->
      fst (getUserList service id userId s) = Rejected NotFoundException).
Proof.
  unfold getUserList; simpl; unfold Mem.findPublicOneById.
  destruct (find _ (Mem.lists s)) as [l|] eqn:F; simpl.
  - pose proof (find_some _ _ F) as [Hin Hp].
    apply andb_true_iff in Hp; destruct Hp as [Hid Hv].
    apply String.eqb_eq in Hid; apply orb_true_iff in Hv.
    unfold Mem.owned_by in Hv; rewrite Z.eqb_eq in Hv.
    split; [reflexivity|]; split; [|split].
    + intros l' E; inversion E; subst; auto.
    + intros _; eauto.
    + intros H; destruct (H l Hin Hid) as [Hpriv Hnot].
      destruct Hv; congruence.
  - split; [reflexivity|]; split; [|split].
    + discriminate.
    + intros (l & Hin & Hid & Hv).
      pose proof (find_none _ _ F l Hin) as N; simpl in N.
      apply andb_false_iff in N; unfold Mem.is_list, Mem.owned_by in N.
      rewrite String.eqb_neq, orb_false_iff, Z.eqb_neq in N.
      destruct N as [N|[N1 N2]]; [congruence|].
      destruct Hv; congruence.
    + reflexivity.
Qed.

(** C8: each paginated query (the caller's lists, the contributors of a
    list, the contributors matching a filter) fulfils with the envelope of
    the requested page out of the ordered matching rows: the items at the
    positions of that page, the count of all matching rows, the page number,
    and ceil(total / limit) pages; a page past the last has no items and the
    same totals.  Page 2 of 15 rows by 10 has 5 items and 2 pages. *)
Theorem paginated_queries_page_envelope o userId listId
        (criteria : Criteria) s :
  (1 <= PageOptionsDto.page o)%Z -> (1 <= PageOptionsDto.limit o)%Z ->
  (exists rows p,
      Permutation rows (filter (Mem.owned_by userId) (Mem.lists s))
      /\ getListsForUser service userId o s = (Fulfilled p, s)
      /\ page_envelope o rows p)
  /\ (exists rows p,
         Permutation rows (filter (Mem.in_list listId) (Mem.contributors s))
         /\ getUserListContributors service o listId s = (Fulfilled p, s)
         /\ page_envelope o rows p)
  /\ (exists rows p,
         Permutation rows (filter (matches criteria) (Mem.users s))
         /\ getContributors service
              {| Mem.FilterListContributorsDto.pageOptions := o;
                 Mem.FilterListContributorsDto.criteria := criteria |} s
            = (Fulfilled p, s)
         /\ page_envelope o rows p)
  /\ (forall (A : Type) (rows : list A),
         PageOptionsDto.page o = 2%Z -> PageOptionsDto.limit o = 10%Z ->
         List.length rows = 15 ->
         List.length (PageDto.items (paginate o rows)) = 5
         /\ PageDto.totalPages (paginate o rows) = 2%Z).
Proof.
  intros Hp Hl; split; [|split; [|split]].
  - eexists; eexists; split; [apply order_rows_perm|]; split;
      [reflexivity | now apply paginate_page_envelope].
  - eexists; eexists; split; [apply order_rows_perm|]; split;
      [reflexivity | now apply paginate_page_envelope].
  - eexists; eexists; split; [apply order_rows_perm|]; split;
      [reflexivity | now apply paginate_page_envelope].
  - intros A rows E2 E10 E15.
    destruct (paginate_page_envelope o rows Hp Hl)
      as (_ & Hlen & _ & _ & Hceil & _).
    rewrite E2, E10, E15 in *; split; lia.
Qed.

(** C9: adding the same contributor to the same list twice in succession
    succeeds twice and leaves two relationships for the one pair: they carry
    the same list id and contributor id and differ in their identifier;
    nothing looks up an existing relationship. *)
Theorem addUserListContributor_not_idempotent listId contributorId s r1 s1 :
  UserListService.addUserListContributor service listId contributorId s
  = (Fulfilled r1, s1) ->
  exists r2 s2,
    UserListService.addUserListContributor service listId contributorId s1
    = (Fulfilled r2, s2)
    /\ DbUserListContributor.id r1 <> DbUserListContributor.id r2
    /\ DbUserListContributor.list_id r1 = listId
    /\ DbUserListContributor.list_id r2 = listId
    /\ DbUserListContributor.contributor_id r1 = contributorId
    /\ DbUserListContributor.contributor_id r2 = contributorId
    /\ Mem.contributors s2 = Mem.contributors s ++ [r1; r2].
Proof.
  simpl; unfold Mem.addUserListContributor.
  destruct (negb (existsb _ (Mem.lists s))) eqn:EL; [discriminate|].
  destruct (negb (existsb _ (Mem.users s))) eqn:EU; [discriminate|].
  intros E; inversion E; subst; clear E; simpl.
  rewrite EL, EU.
  eexists; eexists; split; [reflexivity|]; simpl.
  repeat split; try reflexivity.
  - intros E; apply fresh_id_inj in E; lia.
  - now rewrite <- app_assoc.
Qed.

(** *** The owner of a list *)

Lemma extends_refl s : Mem.extends s s.
Proof. split; [lia|]; intros l' H; left; eauto. Qed.

Lemma extends_trans a b c :
  Mem.extends a b -> Mem.extends b c -> Mem.extends a c.
Proof.
  intros [N1 E1] [N2 E2]; split; [lia|].
  intros l'' H; destruct (E2 l'' H) as [(l' & H' & Ei & Eo)|(n & En & Hn)].
  - destruct (E1 l' H') as [(l & Hl & Ei' & Eo')|(n & En & Hn)].
    + left; exists l; repeat split; congruence.
    + right; exists n; split; [congruence | lia].
  - right; exists n; split; [assumption | lia].
Qed.

Lemma NoDup_map_filter {X Y} (f : X -> Y) (p : X -> bool) (l : list X) :
  NoDup (map f l) -> NoDup (map f (filter p l)).
Proof.
  induction l as [|x l IH]; simpl; intros H; [constructor|].
  inversion H as [|? ? Hn Hd]; subst.
  destruct (p x); simpl; [constructor|]; auto.
  intros Hx; apply Hn; apply in_map_iff in Hx.
  destruct Hx as (y & Ey & Hy); apply filter_In in Hy.
  apply in_map_iff; exists y; tauto.
Qed.

(** A write that leaves the table of lists alone. *)
Lemma same_lists_good s s1 :
  Mem.lists s1 = Mem.lists s -> Mem.next_id s <= Mem.next_id s1 ->
  Mem.wf s -> Mem.wf s1 /\ Mem.extends s s1.
Proof.
  intros EL N [D B]; split; [split|split].
  - now rewrite EL.
  - rewrite EL; intros l H; destruct (B l H) as (n & En & Hn).
    exists n; split; [assumption | lia].
  - assumption.
  - rewrite EL; intros l' H; left; eauto.
Qed.

Lemma addUserList_good userId dto s :
  Mem.wf s ->
  Mem.wf (snd (Mem.addUserList userId dto s))
  /\ Mem.extends s (snd (Mem.addUserList userId dto s)).
Proof.
  intros [D B]; simpl; split; [split|split]; simpl.
  - rewrite map_app; simpl.
    apply NoDup_app; repeat split.
    + assumption.
    + constructor; [intros []|constructor].
    + intros i Hi [E|[]]; subst i.
      apply in_map_iff in Hi; destruct Hi as (l & El & Hl).
      destruct (B l Hl) as (n & En & Hn).
      rewrite En in El; apply fresh_id_inj in El; lia.
  - intros l H; apply in_app_or in H; destruct H as [H|[<-|[]]].
    + destruct (B l H) as (n & En & Hn); exists n; split; [assumption|lia].
    + exists (Mem.next_id s); split; [reflexivity | lia].
  - lia.
  - intros l' H; apply in_app_or in H; destruct H as [H|[<-|[]]].
    + left; eauto.
    + right; exists (Mem.next_id s); split; [reflexivity | lia].
Qed.

Lemma updateUserList_good listId patch s :
  DbUserList.set_owner_id patch = None ->
  Mem.wf s ->
  Mem.wf (snd (Mem.updateUserList listId patch s))
  /\ Mem.extends s (snd (Mem.updateUserList listId patch s)).
Proof.
  intros P [D B]; simpl.
  set (upd := fun l => if Mem.is_list listId l
                       then Mem.apply_partial patch l else l).
  assert (forall l, DbUserList.id (upd l) = DbUserList.id l
                    /\ DbUserList.owner_id (upd l) = DbUserList.owner_id l)
    as K.
  { intros l; unfold upd; destruct (Mem.is_list listId l); simpl;
      [now rewrite P | tauto]. }
  split; [split|split]; simpl.
  - rewrite map_map.
    erewrite map_ext; [exact D | intros l; apply K].
  - intros l' H; apply in_map_iff in H; destruct H as (l & <- & Hl).
    destruct (B l Hl) as (n & En & Hn); exists n.
    split; [now rewrite (proj1 (K l)) | assumption].
  - lia.
  - intros l' H; apply in_map_iff in H; destruct H as (l & <- & Hl).
    left; exists l; split; [assumption|]; split; symmetry; apply K.
Qed.

Lemma deleteUserList_good listId s :
  Mem.wf s ->
  Mem.wf (snd (Mem.deleteUserList listId s))
  /\ Mem.extends s (snd (Mem.deleteUserList listId s)).
Proof.
  intros [D B]; simpl; split; [split|split]; simpl.
  - now apply NoDup_map_filter.
  - intros l H; apply filter_In in H; apply B; tauto.
  - lia.
  - intros l' H; apply filter_In in H; left; exists l'; tauto.
Qed.

Lemma findOneById_store id userId s :
  snd (Mem.findOneById id userId s) = s.
Proof. unfold Mem.findOneById; now destruct (find _ _). Qed.

Lemma add_attempts_effect (order : list nat) listId ids s :
  let '(log, s1) := settle order (add_attempts service listId ids) s in
  Mem.lists s1 = Mem.lists s
  /\ Mem.users s1 = Mem.users s
  /\ Mem.next_id s <= Mem.next_id s1
  /\ Mem.contributors s1 = Mem.contributors s ++ Mem.created log.
Proof. exact (settle_adds_effect order listId ids s). Qed.

Lemma handle_good (served : nat -> list nat) req s :
  Mem.wf s ->
  Mem.wf (Mem.handle matches served req s)
  /\ Mem.extends s (Mem.handle matches served req s).
Proof.
  intros W.
  assert (Mem.wf s /\ Mem.extends s s) as Same
      by (split; [assumption | apply extends_refl]).
  destruct req; simpl; try exact Same.
  - (* addListForUser *)
    destruct (addUserList_good userId createUserListDto s W) as [W1 X1].
    rewrite (addListForUser_after_create
               service served createUserListDto userId s _ _ eq_refl).
    simpl snd in *.
    match goal with
    | |- context [settle ?o (add_attempts _ ?i ?ids) ?st] =>
        pose proof (add_attempts_effect o i ids st) as H;
        destruct (settle o (add_attempts service i ids) st) as [log s2]
    end.
    destruct H as (L & _ & N & _); simpl snd.
    destruct (same_lists_good _ s2 L N W1) as [W2 X2].
    split; [assumption | eapply extends_trans; eassumption].
  - (* getUserList *)
    unfold getUserList; simpl; unfold Mem.findPublicOneById.
    now destruct (find _ _).
  - (* updateListForUser *)
    pose proof (findOneById_store listId userId s) as F.
    destruct (Mem.findOneById listId userId s) as [[l|e] s1] eqn:E;
      simpl in F; subst s1.
    + rewrite (updateListForUser_read_after_write
                 service updateListDto userId listId s l s _ E eq_refl).
      rewrite findOneById_store.
      apply updateUserList_good; [reflexivity | assumption].
    + now rewrite (updateListForUser_guarded
                     service updateListDto userId listId s e s E).
  - (* deleteListForUser *)
    pose proof (findOneById_store listId userId s) as F.
    destruct (Mem.findOneById listId userId s) as [[l|e] s1] eqn:E;
      simpl in F; subst s1.
    + unfold deleteListForUser, await.
      change (UserListService.findOneById service listId userId s)
        with (Mem.findOneById listId userId s).
      rewrite E.
      apply (deleteUserList_good (DbUserList.id l) s W).
    + now rewrite (deleteListForUser_guarded service userId listId s e s E).
  - (* postUserListContributors *)
    rewrite postUserListContributors_store.
    match goal with
    | |- context [settle ?o (add_attempts _ ?i ?ids) ?st] =>
        pose proof (add_attempts_effect o i ids st) as H;
        destruct (settle o (add_attempts service i ids) st) as [log s2]
    end.
    destruct H as (L & _ & N & _); now apply same_lists_good.
  - (* deleteUserListContributors *)
    unfold deleteUserListContributors, await; simpl.
    unfold Mem.deleteUserListContributor.
    destruct (existsb _ _); [|exact Same].
    apply same_lists_good; simpl; auto.
Qed.

Lemma run_good reqs s :
  Mem.wf s ->
  Mem.wf (Mem.run matches reqs s)
  /\ Mem.extends s (Mem.run matches reqs s).
Proof.
  revert s; induction reqs as [|[served req] rest IH]; intros s W; simpl.
  - split; [assumption | apply extends_refl].
  - destruct (handle_good served req s W) as [W1 X1].
    destruct (IH _ W1) as [W2 X2].
    split; [assumption | eapply extends_trans; eassumption].
Qed.

(** C10: no sequence of requests changes the owner of a list.  From a store
    whose identifiers are in order, whatever requests are served and in
    whatever order the store serves the writes of each, a list that is still
    there under its id has the owner it had. *)
Theorem owner_id_never_changes reqs s l l' :
  Mem.wf s ->
  In l (Mem.lists s) ->
  In l' (Mem.lists (Mem.run matches reqs s)) ->
  DbUserList.id l' = DbUserList.id l ->
  DbUserList.owner_id l' = DbUserList.owner_id l.
Proof.
  intros W Hl Hl' Ei.
  destruct (run_good reqs s W) as [_ [_ X]].
  destruct W as [D B].
  destruct (X l' Hl') as [(l0 & H0 & Ei0 & Eo0)|(n & En & Hn)].
  - assert (l0 = l) as ->; [|congruence].
    assert (DbUserList.id l0 = DbUserList.id l) as E by congruence.
    clear - D H0 Hl E.
    induction (Mem.lists s) as [|x xs IH]; simpl in *; [tauto|].
    inversion D as [|? ? Hn Hd]; subst.
    destruct H0 as [->|H0], Hl as [->|Hl]; auto.
    + destruct Hn; rewrite E; now apply in_map.
    + destruct Hn; rewrite <- E; now apply in_map.
  - destruct (B l Hl) as (m & Em & Hm).
    rewrite Ei, Em in En; apply fresh_id_inj in En; lia.
Qed.

End MemFacts.

(** ** Routing *)

(** C4: the route of [getUserList] ([GET /lists/:id]) is declared before
    the route of [getContributors] ([GET /lists/contributors]), whose
    pattern does match that path; under declaration-order matching
    [GET /lists/contributors] is dispatched to [getUserList] with [id] bound
    to the string contributors, and no request at all is dispatched to
    [getContributors]. *)
Theorem contributors_route_shadowed :
  Routes.dispatch Routes.GET ["lists"; "contributors"]
  = Some (Routes.GetUserList, [("id", "contributors")])
  /\ (exists before after,
         Routes.routes
         = before
             ++ (Routes.GET, [Routes.Lit "lists"; Routes.Param "id"],
                 Routes.GetUserList)
             :: after
         /\ In (Routes.GET,
                [Routes.Lit "lists"; Routes.Lit "contributors"],
                Routes.GetContributors) after)
  /\ Routes.match_path [Routes.Lit "lists"; Routes.Lit "contributors"]
                       ["lists"; "contributors"] = Some []
  /\ forall m path params,
       Routes.dispatch m path <> Some (Routes.GetContributors, params).
Proof.
  split; [reflexivity|]; split; [|split; [reflexivity|]].
  - eexists [_; _], _; split; [reflexivity|]; simpl; auto 10.
  - intros m path params; unfold Routes.dispatch, Routes.routes.
    destruct m; destruct path as [|a [|b [|c [|d [|e rest]]]]];
      cbn [Routes.dispatch_in Routes.match_path Routes.method_eqb];
      try discriminate;
      repeat (match goal with
              | |- context [String.eqb ?x ?y] =>
                  destruct (String.eqb_spec x y)
              end;
              cbn [Routes.dispatch_in Routes.match_path Routes.method_eqb];
              try discriminate);
      congruence.
Qed.

(** ** Ownership on the mutating paths *)

(** C1 (the code departs from it): bob does not own alice's private list,
    so the owned look-up rejects him and so do the update and delete
    handlers; the two contributor handlers take no caller and make no owned
    look-up (they are the same whatever the owned look-up is): the add
    creates a relationship in alice's list and the remove deletes one. *)
Theorem contributor_mutations_skip_owned_lookup :
  let svc := Sample.service in
  let s := Sample.store in
  (forall lookup sched dto id relId,
      postUserListContributors
        (UserListService.with_findOneById lookup svc) sched dto id
      = postUserListContributors svc sched dto id
      /\ deleteUserListContributors
           (UserListService.with_findOneById lookup svc) id relId
         = deleteUserListContributors svc id relId)
  /\ fst (UserListService.findOneById svc "0" Sample.bob s)
     = Rejected NotFoundException
  /\ fst (updateListForUser svc Sample.publish Sample.bob "0" s)
     = Rejected NotFoundException
  /\ fst (deleteListForUser svc Sample.bob "0" s)
     = Rejected NotFoundException
  /\ postUserListContributors svc Sample.in_order Sample.only_bob "0" s
     = (Fulfilled [ {| DbUserListContributor.id := "2";
                       DbUserListContributor.list_id := "0";
                       DbUserListContributor.contributor_id := Sample.bob;
                       DbUserListContributor.created_at := 102 |} ],
        {| Mem.lists := Mem.lists s;
           Mem.contributors :=
             [ Sample.carol_in_alices_list;
               {| DbUserListContributor.id := "2";
                  DbUserListContributor.list_id := "0";
                  DbUserListContributor.contributor_id := Sample.bob;
                  DbUserListContributor.created_at := 102 |} ];
           Mem.users := Mem.users s;
           Mem.next_id := 3;
           Mem.clock := 103 |})
  /\ deleteUserListContributors svc "0" "1" s
     = (Fulfilled tt,
        {| Mem.lists := Mem.lists s;
           Mem.contributors := [];
           Mem.users := Mem.users s;
           Mem.next_id := 2;
           Mem.clock := 102 |}).
Proof. repeat split. Qed.

(** ** The theorems on the sample data *)

#[local] Existing Instance Sample.creation_order.

Lemma in_order_perm : forall n, Permutation (Sample.in_order n) (seq 0 n).
Proof. intros n; apply Permutation_refl. Defined.

Lemma reversed_perm : forall n, Permutation (Sample.reversed n) (seq 0 n).
Proof. intros n; apply Permutation_sym, Permutation_rev. Defined.

Lemma sample_store_wf : Mem.wf Sample.store.
Proof.
  split.
  - simpl; constructor; [intros []|constructor].
  - intros l [<-|[]]; exists 0; split; [reflexivity | simpl; lia].
Defined.

(** Carol and bob are added, the id that references nobody is refused: the
    whole request is rejected with that refusal, whichever of the three
    attempts is served first. *)
Lemma postUserListContributors_all_or_nothing_witness :
  (forall n, Permutation (Sample.reversed n) (seq 0 n))
  /\ fst (postUserListContributors Sample.service Sample.reversed
            Sample.bulk "0" Sample.store)
     = Rejected BadRequestException.
Proof.
  split; [exact reversed_perm|].
  destruct (postUserListContributors_all_or_nothing
              Sample.service Sample.reversed reversed_perm
              Sample.bulk "0" Sample.store) as (_ & H & _).
  apply H.
  exists [(2, Fulfilled {| DbUserListContributor.id := "2";
                           DbUserListContributor.list_id := "0";
                           DbUserListContributor.contributor_id := Sample.bob;
                           DbUserListContributor.created_at := 102 |})],
    1,
    [(0, Fulfilled {| DbUserListContributor.id := "3";
                      DbUserListContributor.list_id := "0";
                      DbUserListContributor.contributor_id := Sample.carol;
                      DbUserListContributor.created_at := 103 |})].
  split; [reflexivity|].
  intros i o [E|[]]; inversion E; eauto.
Defined.

(** Bob creates a list seeded with an id that references nobody: the add
    is refused and the list is returned all the same. *)
Lemma addListForUser_tolerates_failed_adds_witness :
  fst (UserListService.addUserListContributor Sample.service "2"
         Sample.nobody
         (snd (UserListService.addUserList Sample.service Sample.bob
                 Sample.seeded Sample.store)))
  = Rejected BadRequestException
  /\ fst (addListForUser Sample.service Sample.in_order Sample.seeded
            Sample.bob Sample.store)
     = Fulfilled {| DbUserList.id := "2";
                    DbUserList.owner_id := Sample.bob;
                    DbUserList.name := "n";
                    DbUserList.is_public := true;
                    DbUserList.created_at := 102 |}.
Proof.
  split; [reflexivity|].
  apply (addListForUser_tolerates_failed_adds
           Sample.service Sample.in_order Sample.seeded Sample.bob
           Sample.store _ _ eq_refl).
Defined.

(** The rejected bulk add has left carol's and bob's new relationships in
    the store. *)
Lemma postUserListContributors_no_rollback_witness :
  fst (postUserListContributors Sample.service Sample.in_order
         Sample.bulk "0" Sample.store)
  = Rejected BadRequestException
  /\ snd (postUserListContributors Sample.service Sample.in_order
            Sample.bulk "0" Sample.store)
     <> Sample.store.
Proof.
  split; [reflexivity|].
  destruct (postUserListContributors_no_rollback
              Sample.by_login Sample.in_order Sample.bulk "0" Sample.store
              BadRequestException eq_refl) as (_ & _ & H).
  apply H.
  exists 0, {| DbUserListContributor.id := "2";
               DbUserListContributor.list_id := "0";
               DbUserListContributor.contributor_id := Sample.carol;
               DbUserListContributor.created_at := 102 |}.
  left; reflexivity.
Defined.

(** Alice renames and publishes her list: the record returned has the new
    name and visibility. *)
Lemma updateListForUser_returns_refreshed_witness :
  Mem.findOneById "0" Sample.alice Sample.store
  = (Fulfilled Sample.alices_list, Sample.store)
  /\ fst (updateListForUser Sample.service Sample.publish Sample.alice "0"
            Sample.store)
     = Fulfilled {| DbUserList.id := "0";
                    DbUserList.owner_id := Sample.alice;
                    DbUserList.name := "maintainers";
                    DbUserList.is_public := true;
                    DbUserList.created_at := 100 |}.
Proof.
  split; [reflexivity|].
  destruct (updateListForUser_returns_refreshed
              Sample.by_login Sample.publish Sample.alice "0" Sample.store
              Sample.alices_list eq_refl) as (s' & E & _).
  change (Mem.service Sample.by_login) with Sample.service in E.
  rewrite E; reflexivity.
Defined.

(** Bob asks for alice's private list and is told there is none. *)
Lemma getUserList_public_or_owned_witness :
  fst (getUserList Sample.service "0" Sample.bob Sample.store)
  = Rejected NotFoundException.
Proof.
  destruct (getUserList_public_or_owned
              Sample.by_login "0" Sample.bob Sample.store) as (_ & _ & _ & H).
  apply H.
  intros l [<-|[]] _; split; [reflexivity | discriminate].
Defined.

(** Page 2 by 10 of alice's lists. *)
Lemma paginated_queries_page_envelope_witness :
  (1 <= PageOptionsDto.page (Sample.page_options 2 10))%Z
  /\ (1 <= PageOptionsDto.limit (Sample.page_options 2 10))%Z
  /\ exists rows p,
       Permutation rows
         (filter (Mem.owned_by Sample.alice) (Mem.lists Sample.store))
       /\ getListsForUser Sample.service Sample.alice
            (Sample.page_options 2 10) Sample.store
          = (Fulfilled p, Sample.store)
       /\ page_envelope (Sample.page_options 2 10) rows p.
Proof.
  split; [simpl; lia|]; split; [simpl; lia|].
  apply (paginated_queries_page_envelope
           Sample.by_login (Sample.page_options 2 10) Sample.alice "0"
           "carol" Sample.store);
    simpl; lia.
Defined.

(** Bob is added twice to alice's list. *)
Lemma addUserListContributor_not_idempotent_witness :
  UserListService.addUserListContributor Sample.service "0" Sample.bob
    Sample.store
  = (Fulfilled {| DbUserListContributor.id := "2";
                  DbUserListContributor.list_id := "0";
                  DbUserListContributor.contributor_id := Sample.bob;
                  DbUserListContributor.created_at := 102 |},
     snd (UserListService.addUserListContributor Sample.service "0"
            Sample.bob Sample.store))
  /\ exists r2 s2,
       UserListService.addUserListContributor Sample.service "0" Sample.bob
         (snd (UserListService.addUserListContributor Sample.service "0"
                 Sample.bob Sample.store))
       = (Fulfilled r2, s2)
       /\ DbUserListContributor.id r2 <> "2"
       /\ DbUserListContributor.list_id r2 = "0"
       /\ DbUserListContributor.contributor_id r2 = Sample.bob.
Proof.
  split; [reflexivity|].
  destruct (addUserListContributor_not_idempotent
              Sample.by_login "0" Sample.bob Sample.store _ _ eq_refl)
    as (r2 & s2 & E & Hid & _ & Hl & _ & Hc & _).
  exists r2, s2; repeat split; auto.
Defined.

(** Bob tries to take over alice's list, alice publishes it, bob creates a
    list of his own and adds himself to alice's: alice still owns hers. *)
Lemma owner_id_never_changes_witness :
  Mem.wf Sample.store
  /\ In Sample.alices_list (Mem.lists Sample.store)
  /\ forall l',
       In l' (Mem.lists
                (Sample.run
                   [ (Sample.in_order,
                      Mem.CallUpdateListForUser Sample.publish Sample.bob "0");
                     (Sample.in_order,
                      Mem.CallUpdateListForUser Sample.publish Sample.alice
                        "0");
                     (Sample.reversed,
                      Mem.CallAddListForUser Sample.seeded Sample.bob);
                     (Sample.reversed,
                      Mem.CallPostUserListContributors Sample.bulk "0");
                     (Sample.in_order,
                      Mem.CallDeleteListForUser Sample.bob "0") ]
                   Sample.store)) ->
       DbUserList.id l' = "0" ->
       DbUserList.owner_id l' = Sample.alice.
Proof.
  split; [exact sample_store_wf|]; split; [now left|].
  intros l' Hin Hid.
  apply (owner_id_never_changes
           Sample.by_login _ Sample.store
           Sample.alices_list l' sample_store_wf (or_introl eq_refl) Hin Hid).
Defined.

(** The controller issues one add per id of the request, repeated or not:
    bob given twice is added twice. *)
Example postUserListContributors_repeated_id :
  fst (postUserListContributors Sample.service Sample.in_order
         {| CollaboratorsDto.contributors := [Sample.bob; Sample.bob] |}
         "0" Sample.store)
  = Fulfilled [ {| DbUserListContributor.id := "2";
                   DbUserListContributor.list_id := "0";
                   DbUserListContributor.contributor_id := Sample.bob;
                   DbUserListContributor.created_at := 102 |};
                {| DbUserListContributor.id := "3";
                   DbUserListContributor.list_id := "0";
                   DbUserListContributor.contributor_id := Sample.bob;
                   DbUserListContributor.created_at := 103 |} ].
Proof. reflexivity. Qed.

(** * Further properties of the controller *)

(** ** Routing *)


(** ** Creation and bulk add, for any service *)

Section MoreControllerFacts.
Context {Store FilterListContributorsDto : Type}.
Variable svc : UserListService.t Store FilterListContributorsDto.
Variable sched : nat -> list nat.

Lemma settle_nil {A} (order : list nat) (s : Store) :
  settle order ([] : list (Async Store A)) s = ([], s).
Proof.
  induction order as [|i rest IH]; simpl; [reflexivity|].
  now destruct i.
Qed.

(** X2: the outcome of the create request is the outcome of the insert of
    the list record, whether fulfilled or rejected; when the insert is
    rejected no contributor add is attempted and the store is the one the
    insert left. *)
Theorem addListForUser_outcome_is_insert_outcome dto userId s :
  fst (addListForUser svc sched dto userId s)
  = fst (UserListService.addUserList svc userId dto s)
  /\ forall e s1,
       UserListService.addUserList svc userId dto s = (Rejected e, s1) ->
       addListForUser svc sched dto userId s = (Rejected e, s1).
Proof.
  unfold addListForUser, await, allSettled.
  destruct (UserListService.addUserList svc userId dto s) as [[l|e] s1];
    simpl.
  - destruct (settle _ _ s1) as [log s2]; simpl.
    split; [reflexivity | discriminate].
  - split; [reflexivity|]; intros e' s1' E; now inversion E.
Qed.

(** X3: seeding at creation and the bulk add differ in their result only:
    once the list record is inserted, the create request leaves the store
    that the bulk add of the same contributor ids to the new list leaves. *)
Theorem addListForUser_store_is_bulk_add_store dto userId s newList s1 :
  UserListService.addUserList svc userId dto s = (Fulfilled newList, s1) ->
  snd (addListForUser svc sched dto userId s)
  = snd (postUserListContributors svc sched
           {| CollaboratorsDto.contributors :=
                CreateUserListDto.contributors dto |}
           (DbUserList.id newList) s1).
Proof.
  intros E.
  rewrite (addListForUser_after_create svc sched dto userId s newList s1 E).
  now rewrite postUserListContributors_store.
Qed.

(** X4: a bulk add of no contributor id fulfils with no relationship and
    leaves the store as it is, whatever the list id: no add is attempted and
    the list is not looked up. *)
Theorem postUserListContributors_no_ids id s :
  postUserListContributors svc sched
    {| CollaboratorsDto.contributors := [] |} id s
  = (Fulfilled [], s).
Proof.
  unfold postUserListContributors, all; simpl.
  now rewrite settle_nil.
Qed.

(** X5: creating a list with no contributor id is the insert of the list
    record and nothing else. *)
Theorem addListForUser_no_ids dto userId s :
  CreateUserListDto.contributors dto = [] ->
  addListForUser svc sched dto userId s
  = UserListService.addUserList svc userId dto s.
Proof.
  intros E; unfold addListForUser, await, allSettled; rewrite E; simpl.
  destruct (UserListService.addUserList svc userId dto s) as [[l|e] s1];
    [|reflexivity].
  now rewrite settle_nil.
Qed.

(** X6: a bulk add of one contributor id is the single add: it fulfils with
    the one relationship the add fulfils with, is rejected as the add is
    rejected, and leaves the store the add leaves. *)
Theorem postUserListContributors_one_id contributorId id s :
  Permutation (sched 1) (seq 0 1) ->
  postUserListContributors svc sched
    {| CollaboratorsDto.contributors := [contributorId] |} id s
  = match UserListService.addUserListContributor svc id contributorId s with
    | (Fulfilled r, s1) => (Fulfilled [r], s1)
    | (Rejected e, s1) => (Rejected e, s1)
    end.
Proof.
  intros P; apply Permutation_sym, Permutation_length_1_inv in P.
  unfold postUserListContributors, all; simpl; rewrite P; simpl.
  destruct (UserListService.addUserListContributor svc id contributorId s)
    as [[r|e] s1]; reflexivity.
Qed.


(** ** Update and delete, for any service *)

(** X8: the update request reads the name and the visibility of its body
    and nothing else: two bodies that agree on both give the same request,
    whatever contributor ids they carry. *)
Theorem updateListForUser_ignores_contributors dto dto' userId listId :
  CreateUserListDto.name dto = CreateUserListDto.name dto' ->
  CreateUserListDto.is_public dto = CreateUserListDto.is_public dto' ->
  updateListForUser svc dto userId listId
  = updateListForUser svc dto' userId listId.
Proof.
  intros En Ep; unfold updateListForUser; now rewrite En, Ep.
Qed.

(** X9: when the owned look-up rejects the caller and writes nothing,
    neither the update nor the delete request writes anything: both are
    rejected as the look-up is, and the store is as before. *)
Theorem rejected_lookup_writes_nothing dto userId listId s e :
  UserListService.findOneById svc listId userId s = (Rejected e, s) ->
  updateListForUser svc dto userId listId s = (Rejected e, s)
  /\ deleteListForUser svc userId listId s = (Rejected e, s).
Proof.
  intros E; unfold updateListForUser, deleteListForUser, await.
  now rewrite E.
Qed.

End MoreControllerFacts.

(** ** Bulk adds served in the order of the ids *)

Section InOrder.
Context {Store A : Type}.
Implicit Types (ps : list (Async Store A)) (log : list (nat * Settled A)).

Lemma settle_app (o1 o2 : list nat) ps s :
  settle (o1 ++ o2) ps s
  = (fst (settle o1 ps s) ++ fst (settle o2 ps (snd (settle o1 ps s))),
     snd (settle o2 ps (snd (settle o1 ps s)))).
Proof.
  revert s; induction o1 as [|i o1 IH]; intros s; simpl.
  - now destruct (settle o2 ps s).
  - destruct (nth_error ps i) as [p|]; [|apply IH].
    destruct (p s) as [o s1]; rewrite IH.
    destruct (settle o1 ps s1) as [l1 s2]; simpl.
    now destruct (settle o2 ps s2).
Qed.

Lemma settle_ext (order : list nat) ps ps' s :
  (forall i, In i order -> nth_error ps i = nth_error ps' i) ->
  settle order ps s = settle order ps' s.
Proof.
  revert s; induction order as [|i order IH]; intros s H; simpl;
    [reflexivity|].
  rewrite <- (H i (or_introl eq_refl)).
  destruct (nth_error ps i) as [p|].
  - destruct (p s) as [o s1]; rewrite IH; [reflexivity|].
    intros j Hj; apply H; now right.
  - apply IH; intros j Hj; apply H; now right.
Qed.

Lemma settle_shift (pre : list (Async Store A)) (order : list nat) ps s :
  settle (map (Nat.add (List.length pre)) order) (pre ++ ps) s
  = (map (fun io => (List.length pre + fst io, snd io))
         (fst (settle order ps s)),
     snd (settle order ps s)).
Proof.
  revert s; induction order as [|i order IH]; intros s; simpl;
    [reflexivity|].
  rewrite nth_error_app2 by lia.
  replace (List.length pre + i - List.length pre) with i by lia.
  destruct (nth_error ps i) as [p|]; [|apply IH].
  destruct (p s) as [o s1]; rewrite IH.
  now destruct (settle order ps s1).
Qed.

Lemma seq_add (k a n : nat) : map (Nat.add k) (seq a n) = seq (k + a) n.
Proof.
  revert a; induction n as [|n IH]; intros a; simpl; [reflexivity|].
  now rewrite IH, Nat.add_succ_r.
Qed.

(** Serving two arrays one after the other, each in order, is serving
    their concatenation in order. *)
Lemma settle_in_order_app ps1 ps2 s :
  settle (seq 0 (List.length (ps1 ++ ps2))) (ps1 ++ ps2) s
  = (fst (settle (seq 0 (List.length ps1)) ps1 s)
     ++ map (fun io => (List.length ps1 + fst io, snd io))
            (fst (settle (seq 0 (List.length ps2)) ps2
                         (snd (settle (seq 0 (List.length ps1)) ps1 s)))),
     snd (settle (seq 0 (List.length ps2)) ps2
                 (snd (settle (seq 0 (List.length ps1)) ps1 s)))).
Proof.
  rewrite length_app, seq_app, settle_app; simpl.
  rewrite (settle_ext (seq 0 (List.length ps1)) (ps1 ++ ps2) ps1).
  - replace (seq (List.length ps1) (List.length ps2))
      with (map (Nat.add (List.length ps1)) (seq 0 (List.length ps2)))
      by (rewrite seq_add; f_equal; lia).
    now rewrite settle_shift.
  - intros i Hi; apply in_seq in Hi; apply nth_error_app1; lia.
Qed.

Lemma first_rejection_app log1 log2 :
  first_rejection (log1 ++ log2)
  = match first_rejection log1 with
    | Some e => Some e
    | None => first_rejection log2
    end.
Proof.
  induction log1 as [|[i [a|e]] log1 IH]; simpl; auto.
Qed.

Lemma first_rejection_shift (k : nat) log :
  first_rejection (map (fun io => (k + fst io, snd io)) log)
  = first_rejection log.
Proof.
  induction log as [|[i [a|e]] log IH]; simpl; auto.
Qed.

Lemma flat_map_ext_on {X Y} (f g : X -> list Y) (l : list X) :
  (forall x, In x l -> f x = g x) -> flat_map f l = flat_map g l.
Proof.
  induction l as [|x l IH]; simpl; intros H; [reflexivity|].
  rewrite (H x (or_introl eq_refl)), IH; auto.
Qed.

(** In a log in the order of the indices with no rejection, the values in
    the order of the array are the values in the order of the log. *)
Lemma values_of_in_order_log (k : nat) log :
  map fst log = seq k (List.length log) ->
  first_rejection log = None ->
  flat_map (fun i => match fulfilled_at log i with
                     | Some a => [a]
                     | None => []
                     end) (seq k (List.length log))
  = flat_map (fun io => match snd io with
                        | Fulfilled a => [a]
                        | Rejected _ => []
                        end) log.
Proof.
  revert k; induction log as [|[i [a|e]] log IH]; intros k Hi Hr;
    simpl in *; [reflexivity| |discriminate].
  injection Hi as Ek Hi'; subst i.
  rewrite Nat.eqb_refl; simpl; f_equal.
  rewrite <- (IH (S k) Hi' Hr).
  apply flat_map_ext_on; intros j Hj; apply in_seq in Hj.
  destruct (Nat.eqb_spec j k); [lia | reflexivity].
Qed.

Lemma values_app log1 log2 :
  flat_map (fun io : nat * Settled A =>
              match snd io with
              | Fulfilled a => [a]
              | Rejected _ => []
              end) (log1 ++ log2)
  = flat_map (fun io => match snd io with
                        | Fulfilled a => [a]
                        | Rejected _ => []
                        end) log1
    ++ flat_map (fun io => match snd io with
                           | Fulfilled a => [a]
                           | Rejected _ => []
                           end) log2.
Proof. apply flat_map_app. Qed.

Lemma values_shift (k : nat) log :
  flat_map (fun io : nat * Settled A =>
              match snd io with
              | Fulfilled a => [a]
              | Rejected _ => []
              end) (map (fun io => (k + fst io, snd io)) log)
  = flat_map (fun io => match snd io with
                        | Fulfilled a => [a]
                        | Rejected _ => []
                        end) log.
Proof.
  induction log as [|[i o] log IH]; simpl; [reflexivity | now rewrite IH].
Qed.

(** [Promise.all] over promises served in the order of the array. *)
Lemma all_in_order ps s :
  all (seq 0 (List.length ps)) ps s
  = (match first_rejection (fst (settle (seq 0 (List.length ps)) ps s)) with
     | Some e => Rejected e
     | None =>
         Fulfilled
           (flat_map (fun io => match snd io with
                                | Fulfilled a => [a]
                                | Rejected _ => []
                                end)
                     (fst (settle (seq 0 (List.length ps)) ps s)))
     end,
     snd (settle (seq 0 (List.length ps)) ps s)).
Proof.
  unfold all.
  pose proof (settle_covers (seq 0 (List.length ps)) ps s
                            (Permutation_refl _)) as C.
  destruct (settle (seq 0 (List.length ps)) ps s) as [log s1]; simpl in *.
  destruct (first_rejection log) eqn:R; [reflexivity|].
  assert (List.length log = List.length ps) as L.
  { rewrite <- (length_map fst log), C; apply length_seq. }
  unfold values_in_order; rewrite <- L in *.
  now rewrite (values_of_in_order_log 0 log C R).
Qed.

Lemma all_in_order_app ps1 ps2 s :
  all (seq 0 (List.length (ps1 ++ ps2))) (ps1 ++ ps2) s
  = let r1 := all (seq 0 (List.length ps1)) ps1 s in
    let r2 := all (seq 0 (List.length ps2)) ps2 (snd r1) in
    (match fst r1, fst r2 with
     | Rejected e, _ => Rejected e
     | Fulfilled _, Rejected e => Rejected e
     | Fulfilled a, Fulfilled b => Fulfilled (a ++ b)
     end,
     snd r2).
Proof.
  cbv zeta; rewrite !all_in_order, settle_in_order_app; simpl.
  rewrite first_rejection_app, first_rejection_shift, values_app,
    values_shift.
  destruct (first_rejection (fst (settle (seq 0 (List.length ps1)) ps1 s)));
    [reflexivity|].
  now destruct (first_rejection _).
Qed.

End InOrder.

(** X10: when the store serves the adds of a request in the order of its
    ids, one bulk add of two sequences of ids put end to end is the bulk add
    of the first followed by the bulk add of the second: the same store is
    left; the request is rejected as the first of the two that is rejected,
    and otherwise fulfils with the relationships of both, end to end. *)
Theorem postUserListContributors_in_order_append
        {Store FilterListContributorsDto : Type}
        (svc : UserListService.t Store FilterListContributorsDto)
        (ids1 ids2 : list Z) (id : string) (s : Store) :
  let post := fun ids =>
    postUserListContributors svc (seq 0)
      {| CollaboratorsDto.contributors := ids |} id in
  let r1 := post ids1 s in
  let r2 := post ids2 (snd r1) in
  post (ids1 ++ ids2) s
  = (match fst r1, fst r2 with
     | Rejected e, _ => Rejected e
     | Fulfilled _, Rejected e => Rejected e
     | Fulfilled a, Fulfilled b => Fulfilled (a ++ b)
     end,
     snd r2).
Proof.
  unfold postUserListContributors; simpl.
  rewrite map_app; apply all_in_order_app.
Qed.

(** ** The further properties on the sample data *)

(** Bob's seeded create leaves the store of the bulk add of the same id to
    the new list. *)
Lemma addListForUser_store_is_bulk_add_store_witness :
  UserListService.addUserList Sample.service Sample.bob Sample.seeded
    Sample.store
  = (Fulfilled {| DbUserList.id := "2";
                  DbUserList.owner_id := Sample.bob;
                  DbUserList.name := "n";
                  DbUserList.is_public := true;
                  DbUserList.created_at := 102 |},
     snd (UserListService.addUserList Sample.service Sample.bob
            Sample.seeded Sample.store))
  /\ snd (addListForUser Sample.service Sample.reversed Sample.seeded
            Sample.bob Sample.store)
     = snd (postUserListContributors Sample.service Sample.reversed
              {| CollaboratorsDto.contributors := [Sample.nobody] |} "2"
              (snd (UserListService.addUserList Sample.service Sample.bob
                      Sample.seeded Sample.store))).
Proof.
  split; [reflexivity|].
  apply (addListForUser_store_is_bulk_add_store
           Sample.service Sample.reversed Sample.seeded Sample.bob
           Sample.store _ _ eq_refl).
Defined.

(** Alice creates a list with no contributor. *)
Lemma addListForUser_no_ids_witness :
  CreateUserListDto.contributors Sample.publish = []
  /\ addListForUser Sample.service Sample.in_order Sample.publish
       Sample.alice Sample.store
     = UserListService.addUserList Sample.service Sample.alice
         Sample.publish Sample.store.
Proof.
  split; [reflexivity|].
  apply (addListForUser_no_ids Sample.service Sample.in_order
           Sample.publish Sample.alice Sample.store eq_refl).
Defined.

(** Bob alone is added to alice's list. *)
Lemma postUserListContributors_one_id_witness :
  Permutation (Sample.reversed 1) (seq 0 1)
  /\ fst (postUserListContributors Sample.service Sample.reversed
            Sample.only_bob "0" Sample.store)
     = Fulfilled [ {| DbUserListContributor.id := "2";
                      DbUserListContributor.list_id := "0";
                      DbUserListContributor.contributor_id := Sample.bob;
                      DbUserListContributor.created_at := 102 |} ].
Proof.
  split; [exact (reversed_perm 1)|].
  change Sample.only_bob
    with {| CollaboratorsDto.contributors := [Sample.bob] |}.
  rewrite (postUserListContributors_one_id
             Sample.service Sample.reversed Sample.bob "0" Sample.store
             (reversed_perm 1)).
  reflexivity.
Defined.


(** Alice's update with contributor ids in its body is her update
    without. *)
Lemma updateListForUser_ignores_contributors_witness :
  updateListForUser Sample.service
    {| CreateUserListDto.name := "maintainers";
       CreateUserListDto.is_public := true;
       CreateUserListDto.contributors := [Sample.bob; Sample.nobody] |}
    Sample.alice "0"
  = updateListForUser Sample.service Sample.publish Sample.alice "0".
Proof.
  apply (updateListForUser_ignores_contributors Sample.service
           {| CreateUserListDto.name := "maintainers";
              CreateUserListDto.is_public := true;
              CreateUserListDto.contributors :=
                [Sample.bob; Sample.nobody] |}
           Sample.publish Sample.alice "0" eq_refl eq_refl).
Defined.

(** Bob's update and delete of alice's list change nothing. *)
Lemma rejected_lookup_writes_nothing_witness :
  UserListService.findOneById Sample.service "0" Sample.bob Sample.store
  = (Rejected NotFoundException, Sample.store)
  /\ updateListForUser Sample.service Sample.publish Sample.bob "0"
       Sample.store
     = (Rejected NotFoundException, Sample.store)
  /\ deleteListForUser Sample.service Sample.bob "0" Sample.store
     = (Rejected NotFoundException, Sample.store).
Proof.
  split; [reflexivity|].
  apply (rejected_lookup_writes_nothing Sample.service Sample.publish
           Sample.bob "0" Sample.store NotFoundException eq_refl).
Defined.
